(** * CurvedArrow: geometry of the curved SVG connector

    A shallow embedding of the geometry engine of
    [src/components/ui/curved-arrow.tsx]: the anchor resolver
    ([calculatePosition]), the coordinate committer ([updateCoordinates]),
    the curve path generator with its obstacle detour ([createCurvePath])
    and the arrowhead generator ([createArrowHead]).

    Numbers.  A JavaScript [number] is modelled as a real number: [+], [-],
    [*], [/] are the exact field operations, [Math.hypot], [Math.sin],
    [Math.cos] and [Math.PI] are the functions and the constant they
    approximate.  The statements over this model are about what the code
    copies, compares and combines.  Where the rounding of IEEE-754 doubles
    decides a property, the computation is stated on binary64 floats
    (module [Binary64]).

    Path strings.  The source builds SVG path data with template literals
    ([`M ${sx} ${sy} C ...`]).  A path string is modelled as the list of its
    commands, each carrying the numbers that the template interpolates;
    [pathString += ` L ${x} ${y}`] is [path ++ [LineTo x y]]. *)

From Stdlib Require Import Reals Lra Lia List String Bool Arith.
From Stdlib Require PrimFloat.
Set Warnings "-inexact-float".
Import ListNotations.
Local Open Scope string_scope.
Local Open Scope list_scope.
Local Open Scope R_scope.

(** ** Numbers *)

Definition Rltb (a b : R) : bool := if Rlt_dec a b then true else false.
Definition Rgtb (a b : R) : bool := Rltb b a.

Infix "<?" := Rltb (at level 70, no associativity) : R_scope.
Infix ">?" := Rgtb (at level 70, no associativity) : R_scope.

Module Math.
Definition abs (a : R) : R := Rabs a.
Definition min (a b : R) : R := Rmin a b.
Definition max (a b : R) : R := Rmax a b.
Definition hypot (a b : R) : R := sqrt (a * a + b * b).
Definition sin (a : R) : R := Rtrigo_def.sin a.
Definition cos (a : R) : R := Rtrigo_def.cos a.
Definition PI : R := Rtrigo1.PI.
(** The angle of the vector [(x, y)] in [(-PI, PI]], [0] for the null
    vector. *)
Definition atan2 (y x : R) : R :=
  if 0 <? x then atan (y / x)
  else if x <? 0 then
    (if y <? 0 then atan (y / x) - Rtrigo1.PI else atan (y / x) + Rtrigo1.PI)
  else if 0 <? y then Rtrigo1.PI / 2
  else if y <? 0 then - (Rtrigo1.PI / 2)
  else 0.
End Math.

(** [for (let i = start; ...; i++) body], run [count] times. *)
Fixpoint for_loop {A : Type} (count start : nat) (body : nat -> A -> A) (acc : A) : A :=
  match count with
  | O => acc
  | S n => for_loop n (S start) body (body start acc)
  end.

(** [switch]'s [case "a": case "b":] label groups, compared with [===]. *)
Definition is_case (s : string) (labels : list string) : bool :=
  existsb (String.eqb s) labels.

(** ** Data *)

(** [{ x, y }] *)
Module Point.
Record t : Type := mk { x : R; y : R }.
End Point.

(** [type RectLite = { x; y; width; height }] *)
Module RectLite.
Record t : Type := mk { x : R; y : R; width : R; height : R }.
End RectLite.

(** What the source reads of [getBoundingClientRect()]. *)
Module DOMRect.
Record t : Type := mk { left : R; top : R; width : R; height : R }.
End DOMRect.

(** SVG path data commands, all with absolute coordinates:
    [M], [L], [C], [S], [Q], [A] and [Z]. *)
Inductive PathCmd : Type :=
| MoveTo (x y : R)
| LineTo (x y : R)
| CubicTo (x1 y1 x2 y2 x y : R)
| SmoothTo (x2 y2 x y : R)
| QuadTo (x1 y1 x y : R)
| ArcTo (rx ry rotation : R) (largeArc sweep : bool) (x y : R)
| ClosePath.

Definition Path : Type := list PathCmd.

(** The point a command moves the pen to ([Z] names none). *)
Definition cmdPoint (c : PathCmd) : option Point.t :=
  match c with
  | MoveTo x y | LineTo x y | CubicTo _ _ _ _ x y | SmoothTo _ _ x y
  | QuadTo _ _ x y | ArcTo _ _ _ _ _ x y => Some (Point.mk x y)
  | ClosePath => None
  end.

Definition firstPoint (p : Path) : option Point.t :=
  match p with
  | MoveTo x y :: _ => Some (Point.mk x y)
  | _ => None
  end.

Definition lastPoint (p : Path) : option Point.t :=
  match rev p with
  | c :: _ => cmdPoint c
  | [] => None
  end.

(** ** Anchor resolver *)

(** [calculatePosition(element, position)]: [rect] is
    [element.getBoundingClientRect()], [containerRect] is
    [containerRef.current?.getBoundingClientRect()]. *)
Definition calculatePosition (containerRect : option DOMRect.t)
    (rect : DOMRect.t) (position : string) : Point.t :=
  match containerRect with
  | None => Point.mk 0 0
  | Some containerRect =>
    let relativeX := DOMRect.left rect - DOMRect.left containerRect in
    let relativeY := DOMRect.top rect - DOMRect.top containerRect in
    let padding := 5 in
    let width := DOMRect.width rect in
    let height := DOMRect.height rect in
    if is_case position ["top"; "top-center"] then
      Point.mk (relativeX + width / 2) (relativeY - padding)
    else if is_case position ["bottom"; "bottom-center"] then
      Point.mk (relativeX + width / 2) (relativeY + height + padding)
    else if is_case position ["left"; "left-center"] then
      Point.mk (relativeX - padding) (relativeY + height / 2)
    else if is_case position ["right"; "right-center"] then
      Point.mk (relativeX + width + padding) (relativeY + height / 2)
    else if is_case position ["center"] then
      Point.mk (relativeX + width / 2) (relativeY + height / 2)
    else if is_case position ["top-left"] then
      Point.mk relativeX relativeY
    else if is_case position ["top-right"] then
      Point.mk (relativeX + width) relativeY
    else if is_case position ["bottom-left"] then
      Point.mk relativeX (relativeY + height)
    else if is_case position ["bottom-right"] then
      Point.mk (relativeX + width) (relativeY + height)
    else if is_case position ["middle-left"; "center-left"] then
      Point.mk relativeX (relativeY + height / 2)
    else if is_case position ["middle-right"; "center-right"] then
      Point.mk (relativeX + width) (relativeY + height / 2)
    else if is_case position ["middle-top"; "center-top"] then
      Point.mk (relativeX + width / 2) relativeY
    else if is_case position ["middle-bottom"; "center-bottom"] then
      Point.mk (relativeX + width / 2) (relativeY + height)
    else
      Point.mk (relativeX + width / 2) (relativeY + height / 2)
  end.

(** The rectangle of an element relative to the container, as
    [updateCoordinates] measures obstacles:
    [{ x: o.left - c.left, y: o.top - c.top, width: o.width, height: o.height }]. *)
Definition relativeRect (c o : DOMRect.t) : RectLite.t :=
  RectLite.mk (DOMRect.left o - DOMRect.left c) (DOMRect.top o - DOMRect.top c)
              (DOMRect.width o) (DOMRect.height o).

(** ** Coordinate state and its committer *)

(** The [coordinates] state of the component. *)
Module Coordinates.
Record t : Type := mk {
  startX : R; startY : R; endX : R; endY : R;
  obstacleRects : list RectLite.t
}.
End Coordinates.

(** The updater passed to [setCoordinates] when both element refs and the
    container are present. *)
Definition updaterFromRefs (sp ep : Point.t) (obstacleRects : list RectLite.t)
    (prev : Coordinates.t) : Coordinates.t :=
  let same :=
    (Math.abs (Coordinates.startX prev - Point.x sp) <? 0.5) &&
    (Math.abs (Coordinates.startY prev - Point.y sp) <? 0.5) &&
    (Math.abs (Coordinates.endX prev - Point.x ep) <? 0.5) &&
    (Math.abs (Coordinates.endY prev - Point.y ep) <? 0.5) &&
    (List.length (Coordinates.obstacleRects prev) =? List.length obstacleRects)%nat in
  if same then prev
  else Coordinates.mk (Point.x sp) (Point.y sp) (Point.x ep) (Point.y ep) obstacleRects.

(** The updater of the fallback branch, from the direct coordinate props. *)
Definition updaterFromProps (startX startY endX endY : R)
    (prev : Coordinates.t) : Coordinates.t :=
  let same :=
    (Math.abs (Coordinates.startX prev - startX) <? 0.5) &&
    (Math.abs (Coordinates.startY prev - startY) <? 0.5) &&
    (Math.abs (Coordinates.endX prev - endX) <? 0.5) &&
    (Math.abs (Coordinates.endY prev - endY) <? 0.5) &&
    (List.length (Coordinates.obstacleRects prev) =? 0)%nat in
  if same then prev
  else Coordinates.mk startX startY endX endY [].

(** What [updateCoordinates] closes over: the props, and the rectangles
    that the refs give at the time of the call ([None] for a ref that is
    absent or whose [current] is null). *)
Module Env.
Record t : Type := mk {
  startElement : option DOMRect.t;
  endElement : option DOMRect.t;
  container : option DOMRect.t;
  obstacleElements : list (option DOMRect.t);
  startPosition : string;
  endPosition : string;
  startX : R; startY : R; endX : R; endY : R
}.
End Env.

(** The mutable cells the callback touches: [isUpdatingRef.current] and
    the committed [coordinates]. *)
Module Cell.
Record t : Type := mk { isUpdating : bool; coordinates : Coordinates.t }.
End Cell.

(** The loop over [obstacleElements]: one relative rectangle for each ref
    that has a current element, in order. *)
Fixpoint measureObstacles (c : DOMRect.t) (refs : list (option DOMRect.t))
    : list RectLite.t :=
  match refs with
  | [] => []
  | Some o :: rest => relativeRect c o :: measureObstacles c rest
  | None :: rest => measureObstacles c rest
  end.

Definition updateCoordinates (env : Env.t) (st : Cell.t) : Cell.t :=
  if Cell.isUpdating st then st
  else
    let prev := Cell.coordinates st in
    match Env.startElement env, Env.endElement env, Env.container env with
    | Some s, Some e, Some c =>
      let sp := calculatePosition (Some c) s (Env.startPosition env) in
      let ep := calculatePosition (Some c) e (Env.endPosition env) in
      let obstacleRects := measureObstacles c (Env.obstacleElements env) in
      Cell.mk false (updaterFromRefs sp ep obstacleRects prev)
    | _, _, _ =>
      Cell.mk false
        (updaterFromProps (Env.startX env) (Env.startY env)
                          (Env.endX env) (Env.endY env) prev)
    end.

(** ** Curve path generator *)

(** The value of the [createCurvePath] memo. *)
Module CurvePath.
Record t : Type := mk { pathString : Path; control2X : R; control2Y : R }.
End CurvePath.

(** Directional bias: ["auto"] picks an axis from the deltas. *)
Definition effectiveDirection (dx dy : R) (curveDirection : string) : string :=
  if String.eqb curveDirection "auto" then
    if Math.abs dx >? Math.abs dy then
      (if dy >? 0 then "up" else "down")
    else
      (if dx >? 0 then "left" else "right")
  else curveDirection.

Definition baseOffset (distance curveIntensity : R) : R :=
  Math.min (distance * curveIntensity) 150.

(** [(offsetX, offsetY)] after the [switch (effectiveDirection)]; both stay
    [0] when no case matches. *)
Definition directionOffset (effectiveDirection : string) (baseOffset : R) : R * R :=
  if String.eqb effectiveDirection "up" then (0, - baseOffset)
  else if String.eqb effectiveDirection "down" then (0, baseOffset)
  else if String.eqb effectiveDirection "left" then (- baseOffset, 0)
  else if String.eqb effectiveDirection "right" then (baseOffset, 0)
  else (0, 0).

(** Body of the [wave] loop, for one [i]. *)
Definition waveSegment (sx sy dx dy baseOffset : R) (segments i : nat)
    (pathString : Path) : Path :=
  let t := INR i / INR segments in
  let x := sx + dx * t in
  let y := sy + dy * t + Math.sin (t * Math.PI * 4) * baseOffset * 0.3 in
  let pt := (INR i - 1) / INR segments in
  let px := sx + dx * pt in
  let py := sy + dy * pt + Math.sin (pt * Math.PI * 4) * baseOffset * 0.3 in
  let cpx := (px + x) / 2 in
  let cpy := (py + y) / 2 in
  pathString ++ [QuadTo cpx cpy x y].

(** Body of the [zigzag] loop, for one [i]. *)
Definition zigzagSegment (sx sy dx dy baseOffset : R) (segments i : nat)
    (pathString : Path) : Path :=
  let t := INR i / INR segments in
  let x := sx + dx * t in
  let zz := if Nat.even i then baseOffset * 0.4 else - baseOffset * 0.4 in
  let y := sy + dy * t + zz in
  pathString ++ [LineTo x y].

(** The variables the obstacle loop updates: the path so far and the
    running point [(cx, cy)]. *)
Module Route.
Record t : Type := mk { pathString : Path; cx : R; cy : R }.
End Route.

(** Body of [obs.forEach]: the detour heuristic for one obstacle. *)
Definition detour (ex ey : R) (st : Route.t) (o : RectLite.t) : Route.t :=
  let cx := Route.cx st in
  let cy := Route.cy st in
  let margin := 25 in
  let left := RectLite.x o - margin in
  let right := RectLite.x o + RectLite.width o + margin in
  let top := RectLite.y o - margin in
  let bottom := RectLite.y o + RectLite.height o + margin in
  let intersects :=
    (cx <? right) && (ex >? left) &&
    (Math.min cy ey <? bottom) && (Math.max cy ey >? top) in
  if intersects then
    let goRight := ex >? RectLite.x o + RectLite.width o / 2 in
    let goUp := ey <? RectLite.y o + RectLite.height o / 2 in
    let wayX := if goRight then right + 20 else left - 20 in
    let wayY := if goUp then top - 10 else bottom + 10 in
    Route.mk (Route.pathString st ++ [LineTo wayX wayY]) wayX wayY
  else st.

(** The single forward pass over the obstacles, in input order. *)
Definition routeAround (sx sy ex ey : R) (obs : list RectLite.t) : Route.t :=
  fold_left (detour ex ey) obs (Route.mk [MoveTo sx sy] sx sy).

Definition createCurvePath (coordinates : Coordinates.t)
    (curveType curveDirection : string) (curveIntensity : R) : CurvePath.t :=
  let sx := Coordinates.startX coordinates in
  let sy := Coordinates.startY coordinates in
  let ex := Coordinates.endX coordinates in
  let ey := Coordinates.endY coordinates in
  let obstacleRects := Coordinates.obstacleRects coordinates in
  let dx := ex - sx in
  let dy := ey - sy in
  let distance := Math.hypot dx dy in
  let effectiveDirection := effectiveDirection dx dy curveDirection in
  let baseOffset := baseOffset distance curveIntensity in
  let '(offsetX, offsetY) := directionOffset effectiveDirection baseOffset in
  if is_case curveType ["smooth"] then
    let c1x := sx + dx * 0.3 + offsetX * 0.5 in
    let c1y := sy + dy * 0.3 + offsetY * 0.5 in
    let control2X := ex - dx * 0.3 + offsetX * 0.5 in
    let control2Y := ey - dy * 0.3 + offsetY * 0.5 in
    CurvePath.mk [MoveTo sx sy; CubicTo c1x c1y control2X control2Y ex ey]
                 control2X control2Y
  else if is_case curveType ["dramatic"] then
    let c1x := sx + dx * 0.1 + offsetX * 1.5 in
    let c1y := sy + dy * 0.1 + offsetY * 1.5 in
    let control2X := ex - dx * 0.1 + offsetX * 1.5 in
    let control2Y := ey - dy * 0.1 + offsetY * 1.5 in
    CurvePath.mk [MoveTo sx sy; CubicTo c1x c1y control2X control2Y ex ey]
                 control2X control2Y
  else if is_case curveType ["s-curve"] then
    let c1x := sx + dx * 0.25 + offsetX * 0.8 in
    let c1y := sy + dy * 0.25 + offsetY * 0.8 in
    let control2X := ex - dx * 0.25 - offsetX * 0.8 in
    let control2Y := ey - dy * 0.25 - offsetY * 0.8 in
    CurvePath.mk [MoveTo sx sy; CubicTo c1x c1y control2X control2Y ex ey]
                 control2X control2Y
  else if is_case curveType ["wave"] then
    let segments := 8%nat in
    let pathString :=
      for_loop segments 1 (waveSegment sx sy dx dy baseOffset segments)
               [MoveTo sx sy] in
    CurvePath.mk pathString (sx + dx * 0.875) (sy + dy * 0.875)
  else if is_case curveType ["elegant"] then
    let midX := (sx + ex) / 2 + offsetX * 0.8 in
    let midY := (sy + ey) / 2 + offsetY * 0.8 in
    let c1x := sx + dx * 0.2 + offsetX * 0.4 in
    let c1y := sy + dy * 0.2 + offsetY * 0.4 in
    let control2X := ex - dx * 0.2 + offsetX * 0.4 in
    let control2Y := ey - dy * 0.2 + offsetY * 0.4 in
    CurvePath.mk [MoveTo sx sy; CubicTo c1x c1y midX midY midX midY;
                  SmoothTo control2X control2Y ex ey]
                 control2X control2Y
  else if is_case curveType ["zigzag"] then
    let segments := 6%nat in
    let pathString :=
      for_loop segments 1 (zigzagSegment sx sy dx dy baseOffset segments)
               [MoveTo sx sy] in
    CurvePath.mk (pathString ++ [LineTo ex ey]) (sx + dx * 0.833) (sy + dy * 0.833)
  else if is_case curveType ["around-obstacle"; "shortest-path"] then
    let obs := obstacleRects in
    match obs with
    | _ :: _ =>
      let r := routeAround sx sy ex ey obs in
      CurvePath.mk (Route.pathString r ++ [LineTo ex ey]) (Route.cx r) (Route.cy r)
    | [] =>
      let c1x := sx + dx * 0.3 in
      let c1y := sy + dy * 0.3 in
      let control2X := ex - dx * 0.3 in
      let control2Y := ey - dy * 0.3 in
      CurvePath.mk [MoveTo sx sy; CubicTo c1x c1y control2X control2Y ex ey]
                   control2X control2Y
    end
  else
    let c1x := sx + dx * 0.3 + offsetX * 0.5 in
    let c1y := sy + dy * 0.3 + offsetY * 0.5 in
    let control2X := ex - dx * 0.3 + offsetX * 0.5 in
    let control2Y := ey - dy * 0.3 + offsetY * 0.5 in
    CurvePath.mk [MoveTo sx sy; CubicTo c1x c1y control2X control2Y ex ey]
                 control2X control2Y.

(** ** Arrowhead generator *)

(** Body of the [star] loop, for one [i]. *)
Definition starPoint (x y totalAngle outer inner : R) (i : nat) (p : Path) : Path :=
  let ang := totalAngle + (INR i * Math.PI) / 5 in
  let r := if Nat.even i then outer else inner in
  let px := x + r * Math.cos ang in
  let py := y + r * Math.sin ang in
  p ++ [if (i =? 0)%nat then MoveTo px py else LineTo px py].

Definition createArrowHead (x y angle size : R) (shape : string)
    (rotation : R) (forceFilled : bool) : Path :=
  let totalAngle := angle + (rotation * Math.PI) / 180 in
  let cos := Math.cos totalAngle in
  let sin := Math.sin totalAngle in
  if forceFilled && is_case shape ["triangle"; "arrow"; "hollow-triangle"] then
    let a := Math.PI / 6 in
    let fx1 := x - size * Math.cos (totalAngle - a) in
    let fy1 := y - size * Math.sin (totalAngle - a) in
    let fx2 := x - size * Math.cos (totalAngle + a) in
    let fy2 := y - size * Math.sin (totalAngle + a) in
    [MoveTo x y; LineTo fx1 fy1; LineTo fx2 fy2; ClosePath]
  else if is_case shape ["triangle"; "arrow"] then
    let a := Math.PI / 6 in
    let x1 := x - size * Math.cos (totalAngle - a) in
    let y1 := y - size * Math.sin (totalAngle - a) in
    let x2 := x - size * Math.cos (totalAngle + a) in
    let y2 := y - size * Math.sin (totalAngle + a) in
    [MoveTo x y; LineTo x1 y1; MoveTo x y; LineTo x2 y2]
  else if is_case shape ["filled-triangle"] then
    let a := Math.PI / 6 in
    let fx1 := x - size * Math.cos (totalAngle - a) in
    let fy1 := y - size * Math.sin (totalAngle - a) in
    let fx2 := x - size * Math.cos (totalAngle + a) in
    let fy2 := y - size * Math.sin (totalAngle + a) in
    [MoveTo x y; LineTo fx1 fy1; LineTo fx2 fy2; ClosePath]
  else if is_case shape ["circle"; "filled-circle"] then
    [MoveTo (x + size * cos) (y + size * sin);
     ArcTo size size 0 true true (x - size * cos) (y - size * sin);
     ArcTo size size 0 true true (x + size * cos) (y + size * sin)]
  else if is_case shape ["hollow-circle"] then
    let r := size * 0.6 in
    [MoveTo (x + size * cos) (y + size * sin);
     ArcTo size size 0 true true (x - size * cos) (y - size * sin);
     ArcTo size size 0 true true (x + size * cos) (y + size * sin);
     MoveTo (x + r * cos) (y + r * sin);
     ArcTo r r 0 true false (x - r * cos) (y - r * sin);
     ArcTo r r 0 true false (x + r * cos) (y + r * sin)]
  else if is_case shape ["square"; "filled-square"] then
    let h := size * 0.7 in
    let pts0 := (x + h * cos - h * sin, y + h * sin + h * cos) in
    let pts1 := (x + h * cos + h * sin, y + h * sin - h * cos) in
    let pts2 := (x - h * cos + h * sin, y - h * sin - h * cos) in
    let pts3 := (x - h * cos - h * sin, y - h * sin + h * cos) in
    [MoveTo (fst pts0) (snd pts0); LineTo (fst pts1) (snd pts1);
     LineTo (fst pts2) (snd pts2); LineTo (fst pts3) (snd pts3); ClosePath]
  else if is_case shape ["diamond"; "filled-diamond"] then
    let d := size * 0.8 in
    [MoveTo (x + d * cos) (y + d * sin); LineTo (x + d * sin) (y - d * cos);
     LineTo (x - d * cos) (y - d * sin); LineTo (x - d * sin) (y + d * cos);
     ClosePath]
  else if is_case shape ["star"] then
    let outer := size in
    let inner := size * 0.4 in
    let p := for_loop 10 0 (starPoint x y totalAngle outer inner) [] in
    p ++ [ClosePath]
  else if is_case shape ["heart"] then
    let s := size * 0.6 in
    let hx1 := x - s * 0.5 * cos + s * 0.8 * sin in
    let hy1 := y - s * 0.5 * sin - s * 0.8 * cos in
    let hx2 := x + s * 0.5 * cos + s * 0.8 * sin in
    let hy2 := y + s * 0.5 * sin - s * 0.8 * cos in
    [MoveTo x y;
     CubicTo hx1 hy1 (x - s * cos) (y - s * sin) (x - s * 0.5 * cos) (y - s * 0.5 * sin);
     CubicTo x (y - s * sin) (x + s * 0.5 * cos) (y + s * 0.5 * sin) (x + s * cos) (y + s * sin);
     CubicTo hx2 hy2 x y x y]
  else if is_case shape ["cross"] then
    let s := size * 0.8 in
    [MoveTo (x - s * cos) (y - s * sin); LineTo (x + s * cos) (y + s * sin);
     MoveTo (x - s * sin) (y + s * cos); LineTo (x + s * sin) (y - s * cos)]
  else if is_case shape ["plus"] then
    let s := size * 0.8 in
    [MoveTo (x - s * cos) (y - s * sin); LineTo (x + s * cos) (y + s * sin);
     MoveTo x (y - s); LineTo x (y + s)]
  else if is_case shape ["chevron"] then
    let c := size * 0.8 in
    let x1 := x - c * Math.cos (totalAngle - Math.PI / 4) in
    let y1 := y - c * Math.sin (totalAngle - Math.PI / 4) in
    let x2 := x - c * Math.cos (totalAngle + Math.PI / 4) in
    let y2 := y - c * Math.sin (totalAngle + Math.PI / 4) in
    [MoveTo x1 y1; LineTo x y; LineTo x2 y2]
  else if is_case shape ["double-chevron"] then
    let c := size * 0.6 in
    let x1 := x - c * Math.cos (totalAngle - Math.PI / 4) in
    let y1 := y - c * Math.sin (totalAngle - Math.PI / 4) in
    let x2 := x - c * Math.cos (totalAngle + Math.PI / 4) in
    let y2 := y - c * Math.sin (totalAngle + Math.PI / 4) in
    let x3 := x - c * 1.6 * Math.cos (totalAngle - Math.PI / 4) in
    let y3 := y - c * 1.6 * Math.sin (totalAngle - Math.PI / 4) in
    let x4 := x - c * 1.6 * Math.cos (totalAngle + Math.PI / 4) in
    let y4 := y - c * 1.6 * Math.sin (totalAngle + Math.PI / 4) in
    let cx := x - c * 0.8 * Math.cos totalAngle in
    let cy := y - c * 0.8 * Math.sin totalAngle in
    [MoveTo x1 y1; LineTo x y; LineTo x2 y2; MoveTo x3 y3; LineTo cx cy; LineTo x4 y4]
  else if is_case shape ["line"] then
    let s := size * 0.8 in
    let lx1 := x - s * sin in
    let ly1 := y + s * cos in
    let lx2 := x + s * sin in
    let ly2 := y - s * cos in
    [MoveTo lx1 ly1; LineTo lx2 ly2]
  else if is_case shape ["dot"] then
    let r := size * 0.3 in
    [MoveTo (x + r) y; ArcTo r r 0 true true (x - r) y; ArcTo r r 0 true true (x + r) y]
  else if is_case shape ["dash"] then
    let s := size * 0.6 in
    let dx1 := x - s * Math.cos totalAngle in
    let dy1 := y - s * Math.sin totalAngle in
    let dx2 := x + s * Math.cos totalAngle in
    let dy2 := y + s * Math.sin totalAngle in
    [MoveTo dx1 dy1; LineTo dx2 dy2]
  else
    let a := Math.PI / 6 in
    let x1 := x - size * Math.cos (totalAngle - a) in
    let y1 := y - size * Math.sin (totalAngle - a) in
    let x2 := x - size * Math.cos (totalAngle + a) in
    let y2 := y - size * Math.sin (totalAngle + a) in
    [MoveTo x y; LineTo x1 y1; MoveTo x y; LineTo x2 y2].

(** ** Head placement *)

(** The props that the head geometry and the two layers read, under the
    names of [CurvedArrowProps].  An optional prop without a default is an
    [option]. *)
Module Props.
Record t : Type := mk {
  curveIntensity : R;
  curveType : string;
  curveDirection : string;
  strokeWidth : R;
  arrowSize : R;
  color : string;
  gradientFrom : string;
  gradientTo : string;
  showStartArrow : bool;
  showEndArrow : bool;
  startArrowShape : string;
  endArrowShape : string;
  startArrowRotation : R;
  endArrowRotation : R;
  startArrowSize : option R;
  endArrowSize : option R;
  startArrowFilled : bool;
  endArrowFilled : bool;
  startArrowStrokeColor : option string;
  startArrowFillColor : option string;
  startArrowStrokeWidth : option R;
  startArrowOpacity : option R;
  endArrowStrokeColor : option string;
  endArrowFillColor : option string;
  endArrowStrokeWidth : option R;
  endArrowOpacity : option R;
  startHeadLayer : string;
  endHeadLayer : string;
  startLineOverHead : bool;
  endLineOverHead : bool;
  animated : bool;
  animationDuration : string;
  animationDelay : string;
  animationDirection : string;
  variant : option string
}.
End Props.

(** The defaults of the destructured props; the optional props without a
    default are absent. *)
Definition defaultProps : Props.t :=
  Props.mk 0.4 "smooth" "auto" 4 20 "#852DEE" "#ffffff" "#852DEE"
           false true "triangle" "triangle" 0 0 None None false false
           None None None None None None None None
           "over" "over" false false true "2s" "0s" "forward" None.

(** Truthiness of a string: every string but the empty one. *)
Definition truthyString (s : string) : bool := negb (String.eqb s "").

(** [v || d] for an optional number: [d] when [v] is undefined or [0]. *)
Definition orNumber (v : option R) (d : R) : R :=
  match v with
  | Some n => if Req_dec_T n 0 then d else n
  | None => d
  end.

(** [s || d] for a string. *)
Definition orString (s d : string) : string := if truthyString s then s else d.

(** [v ?? d] *)
Definition nullish {A : Type} (v : option A) (d : A) : A :=
  match v with
  | Some a => a
  | None => d
  end.

(** [s.includes(sub)] *)
Definition includes (s sub : string) : bool :=
  match String.index 0 sub s with
  | Some _ => true
  | None => false
  end.

(** Truthiness of [show && createArrowHead(...)]: [None] is [false], and a
    path string is truthy unless it is empty. *)
Definition truthyPath (p : option Path) : bool :=
  match p with
  | Some (_ :: _) => true
  | _ => false
  end.

Definition effStartSize (props : Props.t) : R :=
  orNumber (Props.startArrowSize props) (Props.arrowSize props).

Definition effEndSize (props : Props.t) : R :=
  orNumber (Props.endArrowSize props) (Props.arrowSize props).

Definition startTangent (coordinates : Coordinates.t) (curve : CurvePath.t) : R :=
  Math.atan2 (CurvePath.control2Y curve - Coordinates.startY coordinates)
             (CurvePath.control2X curve - Coordinates.startX coordinates).

Definition endTangent (coordinates : Coordinates.t) (curve : CurvePath.t) : R :=
  Math.atan2 (Coordinates.endY coordinates - CurvePath.control2Y curve)
             (Coordinates.endX coordinates - CurvePath.control2X curve).

Definition startAngle (coordinates : Coordinates.t) (curve : CurvePath.t) : R :=
  startTangent coordinates curve + Math.PI.

Definition endAngle (coordinates : Coordinates.t) (curve : CurvePath.t) : R :=
  endTangent coordinates curve.

Definition startHeadPath (props : Props.t) (coordinates : Coordinates.t)
    (curve : CurvePath.t) : option Path :=
  if Props.showStartArrow props then
    Some (createArrowHead (Coordinates.startX coordinates) (Coordinates.startY coordinates)
            (startAngle coordinates curve) (effStartSize props)
            (Props.startArrowShape props) (Props.startArrowRotation props)
            (Props.startArrowFilled props))
  else None.

Definition endHeadPath (props : Props.t) (coordinates : Coordinates.t)
    (curve : CurvePath.t) : option Path :=
  if Props.showEndArrow props then
    Some (createArrowHead (Coordinates.endX coordinates) (Coordinates.endY coordinates)
            (endAngle coordinates curve) (effEndSize props)
            (Props.endArrowShape props) (Props.endArrowRotation props)
            (Props.endArrowFilled props))
  else None.

Definition overlayLen (strokeWidth : R) : R := Math.max (strokeWidth * 2 + 6) 12.

Definition startOverlayPath (coordinates : Coordinates.t) (curve : CurvePath.t)
    (overlayLen : R) : Path :=
  let sx := Coordinates.startX coordinates in
  let sy := Coordinates.startY coordinates in
  let startTangent := startTangent coordinates curve in
  [MoveTo (sx - Math.cos startTangent * overlayLen) (sy - Math.sin startTangent * overlayLen);
   LineTo sx sy].

Definition endOverlayPath (coordinates : Coordinates.t) (curve : CurvePath.t)
    (overlayLen : R) : Path :=
  let ex := Coordinates.endX coordinates in
  let ey := Coordinates.endY coordinates in
  let endTangent := endTangent coordinates curve in
  [MoveTo (ex - Math.cos endTangent * overlayLen) (ey - Math.sin endTangent * overlayLen);
   LineTo ex ey].

(** ** The two layers *)

(** Which [<path>] of [renderSVG] an element is. *)
Inductive Part : Type :=
| Glow | MainLine | DashOverlay | StartHead | EndHead | StartOverlay | EndOverlay.

(** The [<animate>] child of the dash overlay, with the [style] of its
    parent. *)
Module Animate.
Record t : Type := mk {
  animationDelay : string;
  animationDirection : string;
  values : string;
  dur : string
}.
End Animate.

(** One [<path>] element with the attributes the source gives it; an
    attribute that is not written is [None].  Every path has
    [strokeLinecap="round"]. *)
Module SvgPath.
Record t : Type := mk {
  part : Part;
  d : Path;
  stroke : string;
  strokeWidth : R;
  fill : string;
  opacity : option R;
  filter : option string;
  strokeDasharray : option string;
  animate : option Animate.t
}.
End SvgPath.

(** One [<svg>]: the ids of its gradient and filter, and its paths in
    document order. *)
Module Svg.
Record t : Type := mk { gid : string; fid : string; paths : list SvgPath.t }.
End Svg.

(** [cond && <path ... />] as a child list. *)
Definition when (cond : bool) (el : SvgPath.t) : list SvgPath.t :=
  if cond then [el] else [].

Definition isGlowVariant (variant : option string) : bool :=
  match variant with
  | Some v => is_case v ["glow"; "neon"; "fire"; "electric"; "cosmic"]
  | None => false
  end.

(** [renderSVG(layer)]; [gradientIdBase] and [filterIdBase] are the two
    [React.useId()] values of the instance.  [startHeadPath!] is read with
    an empty default, which is never used: the head is drawn only when
    its path is truthy. *)
Definition renderSVG (gradientIdBase filterIdBase : string) (props : Props.t)
    (coordinates : Coordinates.t) (layer : string) : Svg.t :=
  let curve :=
    createCurvePath coordinates (Props.curveType props) (Props.curveDirection props)
                    (Props.curveIntensity props) in
  let pathString := CurvePath.pathString curve in
  let strokeWidth := Props.strokeWidth props in
  let startHeadPath := startHeadPath props coordinates curve in
  let endHeadPath := endHeadPath props coordinates curve in
  let hasGradient :=
    truthyString (Props.gradientFrom props) && truthyString (Props.gradientTo props) in
  let overlayLen := overlayLen strokeWidth in
  let gid := (gradientIdBase ++ "-" ++ layer)%string in
  let fid := (filterIdBase ++ "-" ++ layer)%string in
  let showStartOnLayer :=
    truthyPath startHeadPath && String.eqb (Props.startHeadLayer props) layer in
  let showEndOnLayer :=
    truthyPath endHeadPath && String.eqb (Props.endHeadLayer props) layer in
  let showLineOnLayer := String.eqb layer "under" in
  let defaultStroke :=
    if hasGradient then ("url(#" ++ gid ++ ")")%string else Props.color props in
  let sStroke := nullish (Props.startArrowStrokeColor props) defaultStroke in
  let eStroke := nullish (Props.endArrowStrokeColor props) defaultStroke in
  let sFill := nullish (Props.startArrowFillColor props) defaultStroke in
  let eFill := nullish (Props.endArrowFillColor props) defaultStroke in
  Svg.mk gid fid
    (when (showLineOnLayer && isGlowVariant (Props.variant props))
       (SvgPath.mk Glow pathString defaultStroke (strokeWidth + 4) "none" (Some 0.4)
          (Some ("url(#" ++ fid ++ ")")%string) None None)
     ++ when showLineOnLayer
       (SvgPath.mk MainLine pathString defaultStroke strokeWidth "none" None None None None)
     ++ when (showLineOnLayer && Props.animated props)
       (SvgPath.mk DashOverlay pathString "#ffffff" 2 "none" (Some 0.8) None (Some "12,8")
          (Some (Animate.mk (Props.animationDelay props) (Props.animationDirection props)
                   (if is_case (Props.animationDirection props) ["reverse"; "alternate-reverse"]
                    then "20;0" else "0;20")
                   (Props.animationDuration props))))
     ++ when showStartOnLayer
       (SvgPath.mk StartHead (nullish startHeadPath []) sStroke
          (nullish (Props.startArrowStrokeWidth props) strokeWidth)
          (if Props.startArrowFilled props
              || includes (orString (Props.startArrowShape props) "") "filled"
           then sFill else "none")
          (Some (nullish (Props.startArrowOpacity props) 1)) None None None)
     ++ when showEndOnLayer
       (SvgPath.mk EndHead (nullish endHeadPath []) eStroke
          (nullish (Props.endArrowStrokeWidth props) strokeWidth)
          (if Props.endArrowFilled props
              || includes (orString (Props.endArrowShape props) "") "filled"
           then eFill else "none")
          (Some (nullish (Props.endArrowOpacity props) 1)) None None None)
     ++ when (showStartOnLayer && Props.startLineOverHead props)
       (SvgPath.mk StartOverlay (startOverlayPath coordinates curve overlayLen)
          defaultStroke strokeWidth "none" None None None None)
     ++ when (showEndOnLayer && Props.endLineOverHead props)
       (SvgPath.mk EndOverlay (endOverlayPath coordinates curve overlayLen)
          defaultStroke strokeWidth "none" None None None None)).

(** ** The wave loop in binary64

    The numbers of the source are IEEE-754 doubles.  The wave case of
    [createCurvePath] is stated here on primitive binary64 floats, whose
    [+], [-], [*], [/] and comparisons are the operations of the source.
    The host approximates [Math.hypot] and [Math.sin] in a way the
    language leaves open, so both are parameters. *)
Module Binary64.
Import PrimFloat.
Local Open Scope float_scope.

(** [Math.PI] *)
Definition PI : float := 0x1.921fb54442d18p+1.

(** [Math.min(a, b)]: NaN when either is NaN, and [-0] below [+0]. *)
Definition min (a b : float) : float :=
  if is_nan a || is_nan b then nan
  else if a <? b then a
  else if b <? a then b
  else if get_sign a then a else b.

(** One [` Q ${cpx} ${cpy} ${x} ${y}`] of the path string. *)
Module Quad.
Record t : Type := mk { cpx : float; cpy : float; x : float; y : float }.
End Quad.

(** Body of the [wave] loop, for one [i]. *)
Definition waveSegment (sin : float -> float)
    (sx sy dx dy baseOffset segments i : float) : Quad.t :=
  let t := i / segments in
  let x := sx + dx * t in
  let y := sy + dy * t + sin (t * PI * 4) * baseOffset * 0.3 in
  let pt := (i - 1) / segments in
  let px := sx + dx * pt in
  let py := sy + dy * pt + sin (pt * PI * 4) * baseOffset * 0.3 in
  let cpx := (px + x) / 2 in
  let cpy := (py + y) / 2 in
  Quad.mk cpx cpy x y.

(** [for (let i = ...; i <= segments; i++) pathString += body(i)], with
    fuel for the recursion. *)
Fixpoint waveLoop (fuel : nat) (body : float -> Quad.t) (segments i : float)
    (pathString : list Quad.t) : list Quad.t :=
  match fuel with
  | O => pathString
  | S fuel' =>
    if i <=? segments then
      waveLoop fuel' body segments (i + 1) (pathString ++ [body i])
    else pathString
  end.

(** The [wave] case of [createCurvePath]: the quadratic commands that
    follow [M sx sy]. *)
Definition wave (hypot : float -> float -> float) (sin : float -> float)
    (sx sy ex ey curveIntensity : float) : list Quad.t :=
  let dx := ex - sx in
  let dy := ey - sy in
  let distance := hypot dx dy in
  let baseOffset := min (distance * curveIntensity) 150 in
  let segments := 8 in
  waveLoop 9 (waveSegment sin sx sy dx dy baseOffset segments) segments 1 [].

(** The point where the last command ends. *)
Definition lastPoint (quads : list Quad.t) : option (float * float) :=
  match rev quads with
  | q :: _ => Some (Quad.x q, Quad.y q)
  | [] => None
  end.
End Binary64.

(** ** Vocabulary of the specification *)

(** The eight curve types that have a [case] of their own. *)
Definition implementedCurveTypes : list string :=
  ["smooth"; "dramatic"; "s-curve"; "wave"; "elegant"; "zigzag";
   "around-obstacle"; "shortest-path"].

(** [clamp(v, lo, hi)], as the specification words it for the intensity. *)
Definition clamp (v lo hi : R) : R := Math.max lo (Math.min v hi).

(** The dock positions that have a [case] of their own in
    [calculatePosition]. *)
Definition dockPositions : list string :=
  ["top"; "top-center"; "bottom"; "bottom-center"; "left"; "left-center";
   "right"; "right-center"; "center"; "top-left"; "top-right"; "bottom-left";
   "bottom-right"; "middle-left"; "center-left"; "middle-right"; "center-right";
   "middle-top"; "center-top"; "middle-bottom"; "center-bottom"].

(** The head shapes that have a [case] of their own in [createArrowHead]. *)
Definition implementedShapes : list string :=
  ["triangle"; "arrow"; "filled-triangle"; "circle"; "filled-circle";
   "hollow-circle"; "square"; "filled-square"; "diamond"; "filled-diamond";
   "star"; "heart"; "cross"; "plus"; "chevron"; "double-chevron"; "line";
   "dot"; "dash"].

(** The test [intersects] of the detour loop, as a proposition: the
    segment from [(cx, cy)] to [(ex, ey)] against the rectangle of [o]
    grown by 25. *)
Definition intersectsBox (cx cy ex ey : R) (o : RectLite.t) : Prop :=
  cx < RectLite.x o + RectLite.width o + 25 /\
  ex > RectLite.x o - 25 /\
  Rmin cy ey < RectLite.y o + RectLite.height o + 25 /\
  Rmax cy ey > RectLite.y o - 25.

(** A point 20 beyond the left or right side and 10 beyond the top or
    bottom side of the rectangle of [o] grown by 25. *)
Definition clearanceCorner (o : RectLite.t) (p : Point.t) : Prop :=
  (Point.x p = RectLite.x o + RectLite.width o + 25 + 20 \/
   Point.x p = RectLite.x o - 25 - 20) /\
  (Point.y p = RectLite.y o - 25 - 10 \/
   Point.y p = RectLite.y o + RectLite.height o + 25 + 10).

(** A run of quadratic commands, drawn from [prev], in which every control
    point is the midpoint of the two end points of its segment. *)
Fixpoint chordMidpointQuads (prev : Point.t) (cmds : list PathCmd) : Prop :=
  match cmds with
  | [] => True
  | QuadTo x1 y1 x y :: rest =>
    x1 = (Point.x prev + x) / 2 /\ y1 = (Point.y prev + y) / 2 /\
    chordMidpointQuads (Point.mk x y) rest
  | _ :: _ => False
  end.

(** The head shapes whose path starts at the tip. *)
Definition tipShapes : list string := ["triangle"; "arrow"; "filled-triangle"; "heart"].

(** How many paths of a layer are a given part. *)
Definition Part_eqb (a b : Part) : bool :=
  match a, b with
  | Glow, Glow | MainLine, MainLine | DashOverlay, DashOverlay
  | StartHead, StartHead | EndHead, EndHead
  | StartOverlay, StartOverlay | EndOverlay, EndOverlay => true
  | _, _ => false
  end.

Definition countIn (p : Part) (paths : list SvgPath.t) : nat :=
  List.length (filter (fun el => Part_eqb p (SvgPath.part el)) paths).

Definition countPart (p : Part) (svg : Svg.t) : nat := countIn p (Svg.paths svg).

(** * Properties *)

(** ** Comparisons and switch labels *)

Lemma Rltb_lt (a b : R) : (a <? b) = true <-> a < b.
Proof.
  unfold Rltb. destruct (Rlt_dec a b) as [H | H]; split; intro K;
    [exact H | reflexivity | discriminate | contradiction].
Qed.

Lemma Rltb_nlt (a b : R) : (a <? b) = false <-> ~ a < b.
Proof.
  unfold Rltb. destruct (Rlt_dec a b) as [H | H]; split; intro K;
    [discriminate | contradiction | exact H | reflexivity].
Qed.

Lemma Rgtb_gt (a b : R) : (a >? b) = true <-> a > b.
Proof. unfold Rgtb. apply Rltb_lt. Qed.

Lemma Rgtb_ngt (a b : R) : (a >? b) = false <-> ~ a > b.
Proof. unfold Rgtb. apply Rltb_nlt. Qed.

(** Decide a comparison between closed or linear terms. *)
Ltac compare_num :=
  repeat match goal with
  | |- context [?a <? ?b] =>
    first [ rewrite (proj2 (Rltb_lt a b)) by lra
          | rewrite (proj2 (Rltb_nlt a b)) by lra ]
  | |- context [?a >? ?b] =>
    first [ rewrite (proj2 (Rgtb_gt a b)) by lra
          | rewrite (proj2 (Rgtb_ngt a b)) by lra ]
  end.

(** Run a [switch] on a literal string. *)
Ltac switch := cbv [is_case existsb String.eqb Ascii.eqb Bool.eqb orb andb].

Lemma abs_lt (a b : R) : Math.abs a < b <-> - b < a < b.
Proof.
  unfold Math.abs, Rabs. destruct (Rcase_abs a); split; intros; lra.
Qed.

(** ** Anchor resolver *)

Section DockTable.
Variables c rect : DOMRect.t.

Let x := RectLite.x (relativeRect c rect).
Let y := RectLite.y (relativeRect c rect).
Let w := RectLite.width (relativeRect c rect).
Let h := RectLite.height (relativeRect c rect).
Let resolve := calculatePosition (Some c) rect.

Lemma dock_padded_edges :
  (resolve "top" = Point.mk (x + w / 2) (y - 5) /\
   resolve "top-center" = Point.mk (x + w / 2) (y - 5)) /\
  (resolve "bottom" = Point.mk (x + w / 2) (y + h + 5) /\
   resolve "bottom-center" = Point.mk (x + w / 2) (y + h + 5)) /\
  (resolve "left" = Point.mk (x - 5) (y + h / 2) /\
   resolve "left-center" = Point.mk (x - 5) (y + h / 2)) /\
  (resolve "right" = Point.mk (x + w + 5) (y + h / 2) /\
   resolve "right-center" = Point.mk (x + w + 5) (y + h / 2)).
Proof. repeat split; reflexivity. Qed.

Lemma dock_corners :
  resolve "top-left" = Point.mk x y /\
  resolve "top-right" = Point.mk (x + w) y /\
  resolve "bottom-left" = Point.mk x (y + h) /\
  resolve "bottom-right" = Point.mk (x + w) (y + h).
Proof. repeat split; reflexivity. Qed.

Lemma dock_center :
  resolve "center" = Point.mk (x + w / 2) (y + h / 2).
Proof. reflexivity. Qed.

Lemma dock_unpadded_midpoints :
  (resolve "middle-left" = Point.mk x (y + h / 2) /\
   resolve "center-left" = Point.mk x (y + h / 2)) /\
  (resolve "middle-right" = Point.mk (x + w) (y + h / 2) /\
   resolve "center-right" = Point.mk (x + w) (y + h / 2)) /\
  (resolve "middle-top" = Point.mk (x + w / 2) y /\
   resolve "center-top" = Point.mk (x + w / 2) y) /\
  (resolve "middle-bottom" = Point.mk (x + w / 2) (y + h) /\
   resolve "center-bottom" = Point.mk (x + w / 2) (y + h)).
Proof. repeat split; reflexivity. Qed.
End DockTable.

Lemma point_neq_x (x1 y1 x2 y2 : R) : x1 <> x2 -> Point.mk x1 y1 <> Point.mk x2 y2.
Proof. intros H E. apply H. exact (f_equal Point.x E). Qed.

Lemma point_neq_y (x1 y1 x2 y2 : R) : y1 <> y2 -> Point.mk x1 y1 <> Point.mk x2 y2.
Proof. intros H E. apply H. exact (f_equal Point.y E). Qed.

(** C4. For every entity rectangle [{x, y, width, height}] (the element
    rectangle relative to the container), the anchor resolver follows the
    dock table: [top], [bottom], [left], [right] and their [*-center] forms
    lie 5 units outside the edge midpoint along the edge normal, the four
    corner docks are the rectangle corners with no padding, and [center] is
    the centroid.  In particular [top] on [{x:10, y:10, width:20, height:10}]
    resolves to [(20, 5)], wherever the container is. *)
Theorem calculatePosition_dock_table (c rect : DOMRect.t) :
  let e := relativeRect c rect in
  let x := RectLite.x e in
  let y := RectLite.y e in
  let w := RectLite.width e in
  let h := RectLite.height e in
  let resolve := calculatePosition (Some c) rect in
  (resolve "top" = Point.mk (x + w / 2) (y - 5) /\
   resolve "top-center" = Point.mk (x + w / 2) (y - 5) /\
   resolve "bottom" = Point.mk (x + w / 2) (y + h + 5) /\
   resolve "bottom-center" = Point.mk (x + w / 2) (y + h + 5) /\
   resolve "left" = Point.mk (x - 5) (y + h / 2) /\
   resolve "left-center" = Point.mk (x - 5) (y + h / 2) /\
   resolve "right" = Point.mk (x + w + 5) (y + h / 2) /\
   resolve "right-center" = Point.mk (x + w + 5) (y + h / 2)) /\
  (resolve "top-left" = Point.mk x y /\
   resolve "top-right" = Point.mk (x + w) y /\
   resolve "bottom-left" = Point.mk x (y + h) /\
   resolve "bottom-right" = Point.mk (x + w) (y + h)) /\
  resolve "center" = Point.mk (x + w / 2) (y + h / 2) /\
  calculatePosition (Some c)
    (DOMRect.mk (DOMRect.left c + 10) (DOMRect.top c + 10) 20 10) "top"
  = Point.mk 20 5.
Proof.
  intros e x y w h resolve.
  pose proof (dock_padded_edges c rect) as [[T1 T2] [[B1 B2] [[L1 L2] [R1 R2]]]].
  pose proof (dock_corners c rect) as [K1 [K2 [K3 K4]]].
  pose proof (dock_center c rect) as M.
  repeat split; try assumption.
  unfold calculatePosition. switch.
  cbn [DOMRect.left DOMRect.top DOMRect.width DOMRect.height].
  f_equal; lra.
Qed.

(** C10. For every entity rectangle, the docks [middle-left],
    [center-left], [middle-right], [center-right], [middle-top],
    [center-top], [middle-bottom] and [center-bottom] resolve to the exact
    midpoint of the corresponding edge, with no padding; each of them
    differs from the padded docks of the same edge ([left] and
    [left-center], and so on), which lie 5 units further out. *)
Theorem calculatePosition_alias_midpoints (c rect : DOMRect.t) :
  let e := relativeRect c rect in
  let x := RectLite.x e in
  let y := RectLite.y e in
  let w := RectLite.width e in
  let h := RectLite.height e in
  let resolve := calculatePosition (Some c) rect in
  (resolve "middle-left" = Point.mk x (y + h / 2) /\
   resolve "center-left" = Point.mk x (y + h / 2) /\
   resolve "middle-right" = Point.mk (x + w) (y + h / 2) /\
   resolve "center-right" = Point.mk (x + w) (y + h / 2) /\
   resolve "middle-top" = Point.mk (x + w / 2) y /\
   resolve "center-top" = Point.mk (x + w / 2) y /\
   resolve "middle-bottom" = Point.mk (x + w / 2) (y + h) /\
   resolve "center-bottom" = Point.mk (x + w / 2) (y + h)) /\
  (forall alias padded,
     In alias ["middle-left"; "center-left"] -> In padded ["left"; "left-center"] ->
     resolve alias <> resolve padded /\
     Point.x (resolve padded) = Point.x (resolve alias) - 5) /\
  (forall alias padded,
     In alias ["middle-right"; "center-right"] -> In padded ["right"; "right-center"] ->
     resolve alias <> resolve padded /\
     Point.x (resolve padded) = Point.x (resolve alias) + 5) /\
  (forall alias padded,
     In alias ["middle-top"; "center-top"] -> In padded ["top"; "top-center"] ->
     resolve alias <> resolve padded /\
     Point.y (resolve padded) = Point.y (resolve alias) - 5) /\
  (forall alias padded,
     In alias ["middle-bottom"; "center-bottom"] -> In padded ["bottom"; "bottom-center"] ->
     resolve alias <> resolve padded /\
     Point.y (resolve padded) = Point.y (resolve alias) + 5).
Proof.
  intros e x y w h resolve.
  pose proof (dock_unpadded_midpoints c rect)
    as [[ML CL] [[MR CR] [[MT CT] [MB CB]]]].
  pose proof (dock_padded_edges c rect) as [[T1 T2] [[B1 B2] [[L1 L2] [R1 R2]]]].
  fold resolve in ML, CL, MR, CR, MT, CT, MB, CB, T1, T2, B1, B2, L1, L2, R1, R2.
  split; [repeat split; assumption |].
  repeat split;
    repeat match goal with
    | H : In _ (_ :: _) |- _ => destruct H as [<- | H]
    | H : In _ [] |- _ => destruct H
    end;
    repeat match goal with
    | E : resolve _ = _ |- _ => rewrite E; clear E
    end;
    cbn [Point.x Point.y];
    solve [ lra | apply point_neq_x; lra | apply point_neq_y; lra ].
Qed.

(** ** Coordinate committer *)

Lemma updaterFromRefs_same (prev : Coordinates.t) (sp ep : Point.t)
    (obstacleRects : list RectLite.t) :
  Rabs (Coordinates.startX prev - Point.x sp) < 0.5 ->
  Rabs (Coordinates.startY prev - Point.y sp) < 0.5 ->
  Rabs (Coordinates.endX prev - Point.x ep) < 0.5 ->
  Rabs (Coordinates.endY prev - Point.y ep) < 0.5 ->
  List.length (Coordinates.obstacleRects prev) = List.length obstacleRects ->
  updaterFromRefs sp ep obstacleRects prev = prev.
Proof.
  intros Hsx Hsy Hex Hey Hlen.
  unfold updaterFromRefs, Math.abs.
  rewrite (proj2 (Rltb_lt _ _) Hsx), (proj2 (Rltb_lt _ _) Hsy),
          (proj2 (Rltb_lt _ _) Hex), (proj2 (Rltb_lt _ _) Hey).
  rewrite Hlen, Nat.eqb_refl. reflexivity.
Qed.

Lemma updaterFromProps_same (prev : Coordinates.t) (startX startY endX endY : R) :
  Rabs (Coordinates.startX prev - startX) < 0.5 ->
  Rabs (Coordinates.startY prev - startY) < 0.5 ->
  Rabs (Coordinates.endX prev - endX) < 0.5 ->
  Rabs (Coordinates.endY prev - endY) < 0.5 ->
  List.length (Coordinates.obstacleRects prev) = 0%nat ->
  updaterFromProps startX startY endX endY prev = prev.
Proof.
  intros Hsx Hsy Hex Hey Hlen.
  unfold updaterFromProps, Math.abs.
  rewrite (proj2 (Rltb_lt _ _) Hsx), (proj2 (Rltb_lt _ _) Hsy),
          (proj2 (Rltb_lt _ _) Hex), (proj2 (Rltb_lt _ _) Hey).
  rewrite Hlen. reflexivity.
Qed.

(** A call during an update in flight changes nothing. *)
Lemma updateCoordinates_reentrant (env : Env.t) (st : Cell.t) :
  Cell.isUpdating st = true -> updateCoordinates env st = st.
Proof. intro H. unfold updateCoordinates. rewrite H. reflexivity. Qed.

(** The whole callback on the element branch: a measurement within the
    tolerance leaves the cell as it was. *)
Lemma updateCoordinates_within_tolerance (env : Env.t) (st : Cell.t)
    (s e c : DOMRect.t) :
  Cell.isUpdating st = false ->
  Env.startElement env = Some s -> Env.endElement env = Some e ->
  Env.container env = Some c ->
  let prev := Cell.coordinates st in
  let sp := calculatePosition (Some c) s (Env.startPosition env) in
  let ep := calculatePosition (Some c) e (Env.endPosition env) in
  Rabs (Coordinates.startX prev - Point.x sp) < 0.5 ->
  Rabs (Coordinates.startY prev - Point.y sp) < 0.5 ->
  Rabs (Coordinates.endX prev - Point.x ep) < 0.5 ->
  Rabs (Coordinates.endY prev - Point.y ep) < 0.5 ->
  List.length (Coordinates.obstacleRects prev)
  = List.length (measureObstacles c (Env.obstacleElements env)) ->
  updateCoordinates env st = st.
Proof.
  intros Hup Hs He Hc prev sp ep Hsx Hsy Hex Hey Hlen.
  unfold updateCoordinates. rewrite Hup, Hs, He, Hc.
  fold prev sp ep.
  rewrite (updaterFromRefs_same prev sp ep _ Hsx Hsy Hex Hey Hlen).
  destruct st as [u coords]. cbn in Hup |- *. subst u. reflexivity.
Qed.

(** C5. For every committed coordinate state [prev] and every newly
    computed start, end and obstacle list, if the four coordinate deltas
    are strictly below 0.5 and the obstacle count is the same, the updater
    returns [prev] itself: nothing new is committed.  This holds for the
    updater of the element branch and, when the new state has no obstacle
    (the only case of that branch), for the updater of the direct
    coordinate branch. *)
Theorem updater_discards_small_change (prev : Coordinates.t)
    (sx sy ex ey : R) (obstacleRects : list RectLite.t) :
  Rabs (Coordinates.startX prev - sx) < 0.5 ->
  Rabs (Coordinates.startY prev - sy) < 0.5 ->
  Rabs (Coordinates.endX prev - ex) < 0.5 ->
  Rabs (Coordinates.endY prev - ey) < 0.5 ->
  List.length (Coordinates.obstacleRects prev) = List.length obstacleRects ->
  updaterFromRefs (Point.mk sx sy) (Point.mk ex ey) obstacleRects prev = prev /\
  (obstacleRects = [] -> updaterFromProps sx sy ex ey prev = prev).
Proof.
  intros Hsx Hsy Hex Hey Hlen.
  split.
  - apply updaterFromRefs_same; assumption.
  - intros ->. apply updaterFromProps_same; assumption.
Qed.

Lemma updater_discards_small_change_witness :
  let prev := Coordinates.mk 0 0 100 100 [] in
  updaterFromRefs (Point.mk 0.25 0) (Point.mk 100 100.25) [] prev = prev /\
  (@nil RectLite.t = [] -> updaterFromProps 0.25 0 100 100.25 prev = prev).
Proof.
  apply (updater_discards_small_change (Coordinates.mk 0 0 100 100 [])
           0.25 0 100 100.25 []);
    cbn [Coordinates.startX Coordinates.startY Coordinates.endX Coordinates.endY
         Coordinates.obstacleRects List.length];
    try reflexivity;
    apply abs_lt; lra.
Defined.

(** ** Paths *)

Lemma lastPoint_snoc (p : Path) (c : PathCmd) : lastPoint (p ++ [c]) = cmdPoint c.
Proof. unfold lastPoint. rewrite rev_unit. reflexivity. Qed.

Lemma firstPoint_app (p q : Path) (a : Point.t) :
  firstPoint p = Some a -> firstPoint (p ++ q) = Some a.
Proof.
  destruct p as [| c p]; [discriminate |].
  destruct c; cbn; congruence.
Qed.

(** ** Loops *)

Lemma for_loop_invariant {A : Type} (P : A -> Prop) (body : nat -> A -> A) :
  (forall i a, P a -> P (body i a)) ->
  forall count start a, P a -> P (for_loop count start body a).
Proof.
  intros Hbody count.
  induction count as [| n IH]; intros start a Ha; cbn.
  - exact Ha.
  - apply IH, Hbody, Ha.
Qed.

(** The last iteration of a loop that runs at least once. *)
Lemma for_loop_last {A : Type} (body : nat -> A -> A) (n start : nat) (a : A) :
  for_loop (S n) start body a = body (start + n)%nat (for_loop n start body a).
Proof.
  revert start a.
  induction n as [| n IH]; intros start a.
  - cbn. rewrite Nat.add_0_r. reflexivity.
  - change (for_loop (S (S n)) start body a)
      with (for_loop (S n) (S start) body (body start a)).
    rewrite IH. cbn [for_loop].
    rewrite Nat.add_succ_r. reflexivity.
Qed.

(** ** Distances used by the generators *)

Lemma hypot_axis (a : R) : 0 <= a -> Math.hypot a 0 = a.
Proof.
  intro Ha. unfold Math.hypot.
  replace (a * a + 0 * 0) with (a * a) by lra.
  apply sqrt_square, Ha.
Qed.

(** ** Curve path generator: end points *)

Lemma detour_firstPoint (ex ey : R) (st : Route.t) (o : RectLite.t) (a : Point.t) :
  firstPoint (Route.pathString st) = Some a ->
  firstPoint (Route.pathString (detour ex ey st o)) = Some a.
Proof.
  intro H. unfold detour.
  match goal with |- context [if ?b then _ else _] => destruct b end.
  - cbn [Route.pathString]. apply firstPoint_app, H.
  - exact H.
Qed.

Lemma routeAround_firstPoint (sx sy ex ey : R) (obs : list RectLite.t) :
  firstPoint (Route.pathString (routeAround sx sy ex ey obs)) = Some (Point.mk sx sy).
Proof.
  unfold routeAround.
  assert (G : forall l st, firstPoint (Route.pathString st) = Some (Point.mk sx sy) ->
              firstPoint (Route.pathString (fold_left (detour ex ey) l st))
              = Some (Point.mk sx sy)).
  { induction l as [| o l IH]; intros st H; cbn [fold_left].
    - exact H.
    - apply IH, detour_firstPoint, H. }
  apply G. reflexivity.
Qed.

Lemma wave_firstPoint (sx sy dx dy off : R) (segments count start : nat) :
  firstPoint (for_loop count start (waveSegment sx sy dx dy off segments) [MoveTo sx sy])
  = Some (Point.mk sx sy).
Proof.
  apply (for_loop_invariant (fun p => firstPoint p = Some (Point.mk sx sy))).
  - intros i p H. unfold waveSegment. apply firstPoint_app, H.
  - reflexivity.
Qed.

Lemma zigzag_firstPoint (sx sy dx dy off : R) (segments count start : nat) :
  firstPoint (for_loop count start (zigzagSegment sx sy dx dy off segments) [MoveTo sx sy])
  = Some (Point.mk sx sy).
Proof.
  apply (for_loop_invariant (fun p => firstPoint p = Some (Point.mk sx sy))).
  - intros i p H. unfold zigzagSegment. apply firstPoint_app, H.
  - reflexivity.
Qed.

(** The last command of a [wave] path carries coordinates computed at
    [t = 8 / 8], not the end anchor itself. *)
Lemma wave_last_command (sx sy dx dy off : R) :
  exists p cpx cpy,
    for_loop 8 1 (waveSegment sx sy dx dy off 8) [MoveTo sx sy]
    = p ++ [QuadTo cpx cpy
              (sx + dx * (INR 8 / INR 8))
              (sy + dy * (INR 8 / INR 8)
               + Math.sin (INR 8 / INR 8 * Math.PI * 4) * off * 0.3)].
Proof.
  rewrite for_loop_last. unfold waveSegment at 1. cbn [Nat.add].
  eexists _, _, _. reflexivity.
Qed.

(** Every curve type but [wave] writes the two anchors themselves into
    the path: the first command moves to the start anchor and the last
    command ends at the end anchor. *)
Lemma copied_end_points (coordinates : Coordinates.t)
    (curveType curveDirection : string) (curveIntensity : R) :
  curveType <> "wave" ->
  let path :=
    CurvePath.pathString
      (createCurvePath coordinates curveType curveDirection curveIntensity) in
  firstPoint path
  = Some (Point.mk (Coordinates.startX coordinates) (Coordinates.startY coordinates)) /\
  lastPoint path
  = Some (Point.mk (Coordinates.endX coordinates) (Coordinates.endY coordinates)).
Proof.
  intro Hwave. cbv zeta. unfold createCurvePath.
  destruct (directionOffset _ _) as [offsetX offsetY].
  assert (E : is_case curveType ["wave"] = false).
  { unfold is_case. cbn [existsb].
    rewrite (proj2 (String.eqb_neq curveType "wave") Hwave). reflexivity. }
  rewrite E.
  destruct (is_case curveType ["smooth"]); [split; reflexivity |].
  destruct (is_case curveType ["dramatic"]); [split; reflexivity |].
  destruct (is_case curveType ["s-curve"]); [split; reflexivity |].
  destruct (is_case curveType ["elegant"]); [split; reflexivity |].
  destruct (is_case curveType ["zigzag"]).
  { cbn [CurvePath.pathString].
    split; [apply firstPoint_app, zigzag_firstPoint | apply lastPoint_snoc]. }
  destruct (is_case curveType ["around-obstacle"; "shortest-path"]);
    [| split; reflexivity].
  destruct (Coordinates.obstacleRects coordinates) as [| o obs];
    cbn [CurvePath.pathString].
  - split; reflexivity.
  - split; [apply firstPoint_app, routeAround_firstPoint | apply lastPoint_snoc].
Qed.

(** The [wave] path starts with a move to the start anchor. *)
Lemma wave_starts_at_start_anchor (coordinates : Coordinates.t)
    (curveDirection : string) (curveIntensity : R) :
  firstPoint (CurvePath.pathString
                (createCurvePath coordinates "wave" curveDirection curveIntensity))
  = Some (Point.mk (Coordinates.startX coordinates) (Coordinates.startY coordinates)).
Proof.
  unfold createCurvePath.
  destruct (directionOffset _ _) as [offsetX offsetY].
  switch. cbn [CurvePath.pathString]. apply wave_firstPoint.
Qed.

Section WaveInDoubles.
Import PrimFloat.
Local Open Scope float_scope.
Variable hypot : float -> float -> float.
Variable sin : float -> float.

(** C1, on the doubles of the code.  The [wave] path does not end at the
    end anchor exactly: its last point is computed as
    [sx + (ex - sx) * (8 / 8)], which rounds.  From [startX = 763.8] to
    [endX = 255.1] the eight-command path ends at [x = 255.10000000000002],
    which is not [255.1], for every [startY], [endY] and intensity and
    whatever [Math.hypot] and [Math.sin] return. *)
Theorem wave_last_point_is_computed (sy ey curveIntensity : float) :
  let path := Binary64.wave hypot sin 763.8 sy 255.1 ey curveIntensity in
  List.length path = 8%nat /\
  option_map fst (Binary64.lastPoint path) = Some 255.10000000000002 /\
  (255.10000000000002 =? 255.1) = false /\
  763.8 + (255.1 - 763.8) * (8 / 8) = 255.10000000000002.
Proof.
  cbv zeta. repeat split; vm_compute; reflexivity.
Qed.

(** With integer anchors the x coordinate is exact, and the y coordinate
    is off as soon as the sine of the double [4 * Math.PI] is not [0]: with
    the values that common engines return, the path from [(0, 0)] to
    [(100, 100)] at intensity 0.4 ends at [(100, 99.99999999999999)]. *)
Lemma wave_last_point_integer_anchors :
  hypot 100 100 = 141.4213562373095 ->
  sin 12.566370614359172 = -4.898587196589413e-16 ->
  Binary64.lastPoint (Binary64.wave hypot sin 0 0 100 100 0.4)
  = Some (100, 99.99999999999999).
Proof.
  intros Hh Hs.
  unfold Binary64.wave, Binary64.lastPoint.
  replace (100 - 0) with 100 by (vm_compute; reflexivity).
  rewrite Hh.
  cbn [Binary64.waveLoop].
  vm_compute. rewrite Hs. vm_compute. reflexivity.
Qed.
End WaveInDoubles.

(** Equality of paths and records whose numbers agree as reals. *)
Ltac num_eq :=
  repeat lazymatch goal with
  | |- @eq ?T _ _ =>
    lazymatch T with
    | R => lra
    | _ => progress f_equal
    end
  end.

(** ** Curve path generator: scenarios and fallbacks *)

Lemma abs_nonneg (a : R) : 0 <= a -> Math.abs a = a.
Proof. intro H. unfold Math.abs. apply Rabs_pos_eq, H. Qed.

Lemma min_l (a b : R) : a <= b -> Math.min a b = a.
Proof. intro H. unfold Math.min. apply Rmin_left, H. Qed.

Lemma min_r (a b : R) : b <= a -> Math.min a b = b.
Proof. intro H. unfold Math.min. apply Rmin_right, H. Qed.

Lemma max_l (a b : R) : b <= a -> Math.max a b = a.
Proof. intro H. unfold Math.max. apply Rmax_left, H. Qed.

Lemma max_r (a b : R) : a <= b -> Math.max a b = b.
Proof. intro H. unfold Math.max. apply Rmax_right, H. Qed.

Lemma scenario_A_direction : effectiveDirection (100 - 0) (0 - 0) "auto" = "down".
Proof.
  unfold effectiveDirection.
  replace (100 - 0) with 100 by lra. replace (0 - 0) with 0 by lra.
  rewrite !abs_nonneg by lra.
  cbv [String.eqb Ascii.eqb Bool.eqb].
  compare_num. reflexivity.
Qed.

Lemma scenario_A_offset : baseOffset (Math.hypot (100 - 0) (0 - 0)) 0.4 = 40.
Proof.
  replace (100 - 0) with 100 by lra. replace (0 - 0) with 0 by lra.
  rewrite hypot_axis by lra.
  unfold baseOffset. rewrite min_l by lra. lra.
Qed.

(** C2. Scenario A: for start [(0,0)], end [(100,0)], curve type
    [smooth], intensity 0.4 and direction [auto], the direction resolves to
    [down], the offset is [min(100 * 0.4, 150) = 40] and is applied to the
    y axis, and the path is the single cubic with control points [(30,20)]
    and [(70,20)]. *)
Theorem scenario_A_smooth_auto (obstacleRects : list RectLite.t) :
  effectiveDirection (100 - 0) (0 - 0) "auto" = "down" /\
  baseOffset (Math.hypot (100 - 0) (0 - 0)) 0.4 = 40 /\
  Math.min (100 * 0.4) 150 = 40 /\
  directionOffset "down" 40 = (0, 40) /\
  createCurvePath (Coordinates.mk 0 0 100 0 obstacleRects) "smooth" "auto" 0.4
  = CurvePath.mk [MoveTo 0 0; CubicTo 30 20 70 20 100 0] 70 20.
Proof.
  split; [exact scenario_A_direction |].
  split; [exact scenario_A_offset |].
  split; [rewrite min_l by lra; lra |].
  split; [reflexivity |].
  unfold createCurvePath.
  cbn [Coordinates.startX Coordinates.startY Coordinates.endX Coordinates.endY
       Coordinates.obstacleRects].
  rewrite scenario_A_direction, scenario_A_offset.
  cbv [directionOffset String.eqb Ascii.eqb Bool.eqb].
  switch. num_eq.
Qed.

(** C6. For every pair of anchors, every intensity and every direction,
    when there is no obstacle the path for [around-obstacle] and for
    [shortest-path] is the cubic with control points [start + 0.3 * delta]
    and [end - 0.3 * delta], with no direction offset; the control anchor is
    the second control point. *)
Theorem no_obstacle_fallback (sx sy ex ey : R) (curveDirection : string)
    (curveIntensity : R) :
  let dx := ex - sx in
  let dy := ey - sy in
  let fallback :=
    CurvePath.mk
      [MoveTo sx sy;
       CubicTo (sx + dx * 0.3) (sy + dy * 0.3) (ex - dx * 0.3) (ey - dy * 0.3) ex ey]
      (ex - dx * 0.3) (ey - dy * 0.3) in
  createCurvePath (Coordinates.mk sx sy ex ey []) "around-obstacle"
                  curveDirection curveIntensity = fallback /\
  createCurvePath (Coordinates.mk sx sy ex ey []) "shortest-path"
                  curveDirection curveIntensity = fallback.
Proof.
  cbv zeta. unfold createCurvePath.
  destruct (directionOffset _ _) as [offsetX offsetY].
  split; reflexivity.
Qed.

Lemma is_case_In (s : string) (labels : list string) :
  is_case s labels = true <-> In s labels.
Proof.
  unfold is_case. rewrite existsb_exists. split.
  - intros [l [Hin Heq]]. apply String.eqb_eq in Heq. subst l. exact Hin.
  - intro Hin. exists s. split; [exact Hin | apply String.eqb_refl].
Qed.

Lemma is_case_outside (s : string) (labels all : list string) :
  incl labels all -> ~ In s all -> is_case s labels = false.
Proof.
  intros Hincl Hnot.
  destruct (is_case s labels) eqn:E; [| reflexivity].
  apply is_case_In in E. exfalso. apply Hnot, Hincl, E.
Qed.

Ltac label_incl :=
  let l := fresh "l" in
  let H := fresh "H" in
  intros l H; cbn in H |- *;
  repeat (destruct H as [H | H]; [subst l; tauto |]); destruct H.

(** C7. For every curve type outside the eight implemented ones, and every
    coordinate state, direction and intensity, the generated path and
    control anchor are those of [smooth] on the same inputs. *)
Theorem unrecognized_curveType_is_smooth (coordinates : Coordinates.t)
    (curveType curveDirection : string) (curveIntensity : R) :
  ~ In curveType implementedCurveTypes ->
  createCurvePath coordinates curveType curveDirection curveIntensity
  = createCurvePath coordinates "smooth" curveDirection curveIntensity.
Proof.
  intro Hout. unfold createCurvePath.
  destruct (directionOffset _ _) as [offsetX offsetY].
  rewrite !(fun l H => is_case_outside curveType l implementedCurveTypes H Hout)
    by label_incl.
  reflexivity.
Qed.

Lemma unrecognized_curveType_is_smooth_witness :
  ~ In "spiral" implementedCurveTypes /\
  createCurvePath (Coordinates.mk 0 0 100 100 []) "spiral" "auto" 0.4
  = createCurvePath (Coordinates.mk 0 0 100 100 []) "smooth" "auto" 0.4.
Proof.
  assert (H : ~ In "spiral" implementedCurveTypes).
  { cbn. intro H. repeat (destruct H as [H | H]; [discriminate H |]). exact H. }
  split; [exact H |].
  apply (unrecognized_curveType_is_smooth
           (Coordinates.mk 0 0 100 100 []) "spiral" "auto" 0.4 H).
Defined.

(** The identifiers that the prop type reserves for future styles take the
    same route. *)
Lemma reserved_curveTypes_are_smooth (coordinates : Coordinates.t)
    (curveDirection : string) (curveIntensity : R) :
  forall reserved, In reserved ["spiral"; "loop"; "heart"; "infinity"] ->
  createCurvePath coordinates reserved curveDirection curveIntensity
  = createCurvePath coordinates "smooth" curveDirection curveIntensity.
Proof.
  intros reserved H. unfold createCurvePath.
  destruct (directionOffset _ _) as [offsetX offsetY].
  cbn in H.
  repeat (destruct H as [H | H]; [subst reserved; reflexivity |]).
  destruct H.
Qed.

(** ** Intensity *)

Lemma clamp_inside (v lo hi : R) : lo <= v <= hi -> clamp v lo hi = v.
Proof.
  intros [Hlo Hhi]. unfold clamp.
  rewrite (min_l v hi) by exact Hhi. apply max_r, Hlo.
Qed.

Lemma smooth_down_control2Y (coordinates : Coordinates.t) (curveIntensity : R) :
  let dx := Coordinates.endX coordinates - Coordinates.startX coordinates in
  let dy := Coordinates.endY coordinates - Coordinates.startY coordinates in
  CurvePath.control2Y (createCurvePath coordinates "smooth" "down" curveIntensity)
  = Coordinates.endY coordinates - dy * 0.3
    + Math.min (Math.hypot dx dy * curveIntensity) 150 * 0.5.
Proof. reflexivity. Qed.

(** Intensity 3 on a chord of length 10: the generator bows by 30, where a
    clamp to [[0.1, 2.0]] would give 20. *)
Lemma intensity_3_is_not_clamped :
  let distance := Math.hypot (10 - 0) (0 - 0) in
  baseOffset distance 3 = 30 /\
  Math.min (distance * clamp 3 0.1 2.0) 150 = 20 /\
  baseOffset distance 3 <> Math.min (distance * clamp 3 0.1 2.0) 150 /\
  CurvePath.control2Y
    (createCurvePath (Coordinates.mk 0 0 10 0 []) "smooth" "down" 3) = 15.
Proof.
  cbv zeta.
  assert (Hd : Math.hypot (10 - 0) (0 - 0) = 10).
  { replace (10 - 0) with 10 by lra. replace (0 - 0) with 0 by lra.
    apply hypot_axis. lra. }
  assert (Hc : clamp 3 0.1 2.0 = 2).
  { unfold clamp. rewrite (min_r 3 2.0) by lra. rewrite max_r by lra. lra. }
  assert (H30 : baseOffset (Math.hypot (10 - 0) (0 - 0)) 3 = 30).
  { unfold baseOffset. rewrite Hd, min_l by lra. lra. }
  assert (H20 : Math.min (Math.hypot (10 - 0) (0 - 0) * clamp 3 0.1 2.0) 150 = 20).
  { rewrite Hd, Hc, min_l by lra. lra. }
  split; [exact H30 |].
  split; [exact H20 |].
  split; [rewrite H30, H20; lra |].
  rewrite smooth_down_control2Y.
  cbn [Coordinates.startX Coordinates.startY Coordinates.endX Coordinates.endY].
  fold (baseOffset (Math.hypot (10 - 0) (0 - 0)) 3).
  rewrite H30. lra.
Qed.

(** C8, as the code has it.  The generator uses [curveIntensity] as it is
    passed, with no clamp: for every intensity the bow offset is
    [min(distance * curveIntensity, 150)], split on the axis of the
    resolved direction, and every style that bows is built from that
    offset: [smooth], [dramatic], [s-curve], [elegant] and the default
    through the control points, [wave] and [zigzag] through every sample of
    their loops.  For an intensity inside [[0.1, 2.0]] this is the offset of
    the clamped formula. *)
Theorem baseOffset_uses_intensity_as_given (coordinates : Coordinates.t)
    (curveDirection : string) (curveIntensity : R) :
  let sx := Coordinates.startX coordinates in
  let sy := Coordinates.startY coordinates in
  let ex := Coordinates.endX coordinates in
  let ey := Coordinates.endY coordinates in
  let dx := ex - sx in
  let dy := ey - sy in
  let distance := Math.hypot dx dy in
  let offset := Math.min (distance * curveIntensity) 150 in
  let bias := directionOffset (effectiveDirection dx dy curveDirection) offset in
  let offsetX := fst bias in
  let offsetY := snd bias in
  let generate curveType :=
    createCurvePath coordinates curveType curveDirection curveIntensity in
  baseOffset distance curveIntensity = offset /\
  generate "smooth"
  = CurvePath.mk
      [MoveTo sx sy;
       CubicTo (sx + dx * 0.3 + offsetX * 0.5) (sy + dy * 0.3 + offsetY * 0.5)
               (ex - dx * 0.3 + offsetX * 0.5) (ey - dy * 0.3 + offsetY * 0.5) ex ey]
      (ex - dx * 0.3 + offsetX * 0.5) (ey - dy * 0.3 + offsetY * 0.5) /\
  generate "dramatic"
  = CurvePath.mk
      [MoveTo sx sy;
       CubicTo (sx + dx * 0.1 + offsetX * 1.5) (sy + dy * 0.1 + offsetY * 1.5)
               (ex - dx * 0.1 + offsetX * 1.5) (ey - dy * 0.1 + offsetY * 1.5) ex ey]
      (ex - dx * 0.1 + offsetX * 1.5) (ey - dy * 0.1 + offsetY * 1.5) /\
  generate "s-curve"
  = CurvePath.mk
      [MoveTo sx sy;
       CubicTo (sx + dx * 0.25 + offsetX * 0.8) (sy + dy * 0.25 + offsetY * 0.8)
               (ex - dx * 0.25 - offsetX * 0.8) (ey - dy * 0.25 - offsetY * 0.8) ex ey]
      (ex - dx * 0.25 - offsetX * 0.8) (ey - dy * 0.25 - offsetY * 0.8) /\
  generate "wave"
  = CurvePath.mk
      (for_loop 8 1 (waveSegment sx sy dx dy offset 8) [MoveTo sx sy])
      (sx + dx * 0.875) (sy + dy * 0.875) /\
  generate "elegant"
  = CurvePath.mk
      [MoveTo sx sy;
       CubicTo (sx + dx * 0.2 + offsetX * 0.4) (sy + dy * 0.2 + offsetY * 0.4)
               ((sx + ex) / 2 + offsetX * 0.8) ((sy + ey) / 2 + offsetY * 0.8)
               ((sx + ex) / 2 + offsetX * 0.8) ((sy + ey) / 2 + offsetY * 0.8);
       SmoothTo (ex - dx * 0.2 + offsetX * 0.4) (ey - dy * 0.2 + offsetY * 0.4) ex ey]
      (ex - dx * 0.2 + offsetX * 0.4) (ey - dy * 0.2 + offsetY * 0.4) /\
  generate "zigzag"
  = CurvePath.mk
      (for_loop 6 1 (zigzagSegment sx sy dx dy offset 6) [MoveTo sx sy]
       ++ [LineTo ex ey])
      (sx + dx * 0.833) (sy + dy * 0.833) /\
  (forall curveType,
     ~ In curveType implementedCurveTypes -> generate curveType = generate "smooth") /\
  (0.1 <= curveIntensity <= 2.0 ->
   offset = Math.min (distance * clamp curveIntensity 0.1 2.0) 150).
Proof.
  cbv zeta. unfold createCurvePath, baseOffset.
  destruct (directionOffset _ _) as [offsetX offsetY]. cbn [fst snd].
  do 7 (split; [reflexivity |]).
  split.
  - intros curveType Hout.
    rewrite !(fun l H => is_case_outside curveType l implementedCurveTypes H Hout)
      by label_incl.
    reflexivity.
  - intro Hrange.
    rewrite (clamp_inside curveIntensity 0.1 2.0 Hrange). reflexivity.
Qed.

Lemma baseOffset_uses_intensity_as_given_witness :
  let coordinates := Coordinates.mk 0 0 100 0 [] in
  (~ In "spiral" implementedCurveTypes /\
   createCurvePath coordinates "spiral" "auto" 0.4
   = createCurvePath coordinates "smooth" "auto" 0.4) /\
  (0.1 <= 0.4 <= 2.0 /\
   Math.min (Math.hypot (100 - 0) (0 - 0) * 0.4) 150
   = Math.min (Math.hypot (100 - 0) (0 - 0) * clamp 0.4 0.1 2.0) 150).
Proof.
  cbv zeta.
  assert (Hout : ~ In "spiral" implementedCurveTypes).
  { cbn. intro H. repeat (destruct H as [H | H]; [discriminate H |]). exact H. }
  assert (Hrange : 0.1 <= 0.4 <= 2.0) by lra.
  pose proof (baseOffset_uses_intensity_as_given
                (Coordinates.mk 0 0 100 0 []) "auto" 0.4) as H.
  cbv zeta in H.
  destruct H as [_ [_ [_ [_ [_ [_ [_ [Hdefault Hclamp]]]]]]]].
  split; (split; [assumption |]).
  - exact (Hdefault "spiral" Hout).
  - exact (Hclamp Hrange).
Defined.

(** ** Obstacle detour *)

Section DetourStep.
Variables (ex ey : R) (st : Route.t) (o : RectLite.t).

Let cx := Route.cx st.
Let cy := Route.cy st.
Let left := RectLite.x o - 25.
Let right := RectLite.x o + RectLite.width o + 25.
Let top := RectLite.y o - 25.
Let bottom := RectLite.y o + RectLite.height o + 25.
Let wayX := if ex >? RectLite.x o + RectLite.width o / 2 then right + 20 else left - 20.
Let wayY := if ey <? RectLite.y o + RectLite.height o / 2 then top - 10 else bottom + 10.

(** The test of the source, as a proposition. *)
Lemma detour_hit :
  cx < right -> ex > left -> Rmin cy ey < bottom -> Rmax cy ey > top ->
  detour ex ey st o = Route.mk (Route.pathString st ++ [LineTo wayX wayY]) wayX wayY.
Proof.
  unfold cx, cy, left, right, top, bottom, wayX, wayY.
  intros H1 H2 H3 H4. unfold detour, Math.min, Math.max. cbv zeta.
  rewrite (proj2 (Rltb_lt _ _) H1), (proj2 (Rgtb_gt _ _) H2),
          (proj2 (Rltb_lt _ _) H3), (proj2 (Rgtb_gt _ _) H4).
  reflexivity.
Qed.

Lemma detour_miss :
  ~ (cx < right /\ ex > left /\ Rmin cy ey < bottom /\ Rmax cy ey > top) ->
  detour ex ey st o = st.
Proof.
  unfold cx, cy, left, right, top, bottom.
  intro H. unfold detour, Math.min, Math.max. cbv zeta.
  destruct (Route.cx st <? RectLite.x o + RectLite.width o + 25) eqn:E1;
    [| reflexivity].
  destruct (ex >? RectLite.x o - 25) eqn:E2; [| reflexivity].
  destruct (Rmin (Route.cy st) ey <? RectLite.y o + RectLite.height o + 25) eqn:E3;
    [| reflexivity].
  destruct (Rmax (Route.cy st) ey >? RectLite.y o - 25) eqn:E4; [| reflexivity].
  exfalso. apply H.
  apply Rltb_lt in E1, E3. apply Rgtb_gt in E2, E4.
  repeat split; assumption.
Qed.
End DetourStep.

(** Evaluate the detour test on literal numbers. *)
Ltac run_detour :=
  unfold routeAround, detour, Math.min, Math.max;
  cbn [fold_left Route.cx Route.cy Route.pathString
       RectLite.x RectLite.y RectLite.width RectLite.height];
  repeat first [ rewrite Rmin_left by lra | rewrite Rmin_right by lra
               | rewrite Rmax_left by lra | rewrite Rmax_right by lra ];
  compare_num; cbn [andb app].

Lemma scenario_C_route :
  routeAround 0 50 100 50 [RectLite.mk 40 40 20 20]
  = Route.mk [MoveTo 0 50; LineTo 105 95] 105 95.
Proof. run_detour. num_eq. Qed.

(** Scenario C on the code: the box of [{x:40, y:40, width:20, height:20}]
    grown by 25 reaches down to [y = 85], so the waypoint is [(105, 95)],
    not [(105, 75)]; a segment at [y = 70], below 65, is still detoured. *)
Lemma scenario_C_waypoint_is_not_105_75 :
  let o := RectLite.mk 40 40 20 20 in
  routeAround 0 50 100 50 [o] = Route.mk [MoveTo 0 50; LineTo 105 95] 105 95 /\
  routeAround 0 50 100 50 [o] <> Route.mk [MoveTo 0 50; LineTo 105 75] 105 75 /\
  routeAround 0 70 100 70 [o] = Route.mk [MoveTo 0 70; LineTo 105 95] 105 95.
Proof.
  cbv zeta.
  split; [exact scenario_C_route |].
  split.
  - rewrite scenario_C_route. intro E.
    apply (f_equal Route.cy) in E. cbn in E. lra.
  - run_detour. num_eq.
Qed.

(** A running point to the right of the end anchor: the x test of the
    source is not a test of range overlap there.  From [(100, 50)] to
    [(0, 50)] the same obstacle lies between the two points and no waypoint
    is inserted. *)
Lemma detour_right_to_left (st : Route.t) :
  Route.cx st = 100 -> Route.cy st = 50 ->
  detour 0 50 st (RectLite.mk 40 40 20 20) = st.
Proof.
  intros Hx Hy. apply detour_miss.
  cbn [RectLite.x RectLite.y RectLite.width RectLite.height].
  rewrite Hx. lra.
Qed.

(** C3, as the code has it.  The router makes one pass over the obstacles
    in input order.  For each obstacle it grows the rectangle by 25 and,
    when the running point is not to the right of the end anchor, appends
    exactly one waypoint if the x ranges and the y ranges of the segment
    from the running point to the end anchor overlap the grown box, and
    nothing otherwise; the waypoint lies 20 beyond the right or left side
    and 10 beyond the top or bottom side, on the sides of the obstacle
    centre where the end anchor lies, and becomes the running point.  For
    the obstacle [{x:40, y:40, width:20, height:20}], start [(0,50)] and
    end [(100,50)] the grown box is [15..85] on both axes and the path is
    [M 0 50 L 105 95 L 100 50] with control anchor [(105, 95)]. *)
Theorem detour_single_pass :
  (forall sx sy ex ey obs1 obs2,
     routeAround sx sy ex ey (obs1 ++ obs2)
     = fold_left (detour ex ey) obs2 (routeAround sx sy ex ey obs1)) /\
  (forall ex ey st o,
     let cx := Route.cx st in
     let cy := Route.cy st in
     let left := RectLite.x o - 25 in
     let right := RectLite.x o + RectLite.width o + 25 in
     let top := RectLite.y o - 25 in
     let bottom := RectLite.y o + RectLite.height o + 25 in
     let wayX :=
       if ex >? RectLite.x o + RectLite.width o / 2 then right + 20 else left - 20 in
     let wayY :=
       if ey <? RectLite.y o + RectLite.height o / 2 then top - 10 else bottom + 10 in
     let overlap :=
       Rmin cx ex < right /\ Rmax cx ex > left /\
       Rmin cy ey < bottom /\ Rmax cy ey > top in
     cx <= ex ->
     (overlap ->
      detour ex ey st o
      = Route.mk (Route.pathString st ++ [LineTo wayX wayY]) wayX wayY) /\
     (~ overlap -> detour ex ey st o = st)) /\
  (let o := RectLite.mk 40 40 20 20 in
   RectLite.x o - 25 = 15 /\ RectLite.x o + RectLite.width o + 25 = 85 /\
   RectLite.y o - 25 = 15 /\ RectLite.y o + RectLite.height o + 25 = 85 /\
   forall curveType curveDirection curveIntensity,
     In curveType ["around-obstacle"; "shortest-path"] ->
     createCurvePath (Coordinates.mk 0 50 100 50 [o])
                     curveType curveDirection curveIntensity
     = CurvePath.mk [MoveTo 0 50; LineTo 105 95; LineTo 100 50] 105 95).
Proof.
  split; [| split].
  - intros sx sy ex ey obs1 obs2. unfold routeAround. apply fold_left_app.
  - intros ex ey st o cx cy left right top bottom wayX wayY overlap Hle.
    unfold overlap.
    rewrite (Rmin_left cx ex Hle), (Rmax_right cx ex Hle).
    split.
    + intros [H1 [H2 [H3 H4]]]. apply detour_hit; assumption.
    + intro H. apply detour_miss. exact H.
  - cbv zeta. cbn [RectLite.x RectLite.y RectLite.width RectLite.height].
    repeat (split; [lra |]).
    intros curveType curveDirection curveIntensity Hin.
    unfold createCurvePath.
    destruct (directionOffset _ _) as [offsetX offsetY].
    cbn [Coordinates.startX Coordinates.startY Coordinates.endX Coordinates.endY
         Coordinates.obstacleRects].
    cbn in Hin.
    destruct Hin as [<- | [<- | []]]; switch;
      rewrite scenario_C_route; reflexivity.
Qed.

Lemma detour_single_pass_witness :
  let st := Route.mk [MoveTo 0 50] 0 50 in
  let o := RectLite.mk 40 40 20 20 in
  Route.cx st <= 100 /\
  detour 100 50 st o = Route.mk [MoveTo 0 50; LineTo 105 95] 105 95.
Proof.
  cbv zeta.
  assert (Hle : Route.cx (Route.mk [MoveTo 0 50] 0 50) <= 100) by (cbn; lra).
  split; [exact Hle |].
  rewrite (proj1 (proj1 (proj2 detour_single_pass)
                    100 50 (Route.mk [MoveTo 0 50] 0 50) (RectLite.mk 40 40 20 20) Hle)).
  - cbn [Route.cx Route.cy Route.pathString
         RectLite.x RectLite.y RectLite.width RectLite.height app].
    compare_num. num_eq.
  - cbn [Route.cx Route.cy RectLite.x RectLite.y RectLite.width RectLite.height].
    rewrite Rmin_left, Rmax_right, Rmin_left, Rmax_left by lra. lra.
Defined.

(** ** Arrowhead generator *)

Lemma filled_triangle_shape (x y angle size rotation : R) (forceFilled : bool) :
  let totalAngle := angle + (rotation * Math.PI) / 180 in
  let a := Math.PI / 6 in
  createArrowHead x y angle size "filled-triangle" rotation forceFilled
  = [MoveTo x y;
     LineTo (x - size * Math.cos (totalAngle - a)) (y - size * Math.sin (totalAngle - a));
     LineTo (x - size * Math.cos (totalAngle + a)) (y - size * Math.sin (totalAngle + a));
     ClosePath].
Proof. destruct forceFilled; reflexivity. Qed.

Lemma cos_sq_PI6 : cos (PI / 6) * cos (PI / 6) = 3 / 4.
Proof.
  rewrite cos_PI6.
  pose proof (sqrt_sqrt 3) as H.
  assert (H3 : sqrt 3 * sqrt 3 = 3) by (apply H; lra).
  lra.
Qed.

Lemma wing_distance (dy : R) :
  dy * dy = 100 -> Math.hypot (50 - 20 * cos (PI / 6) - 50) dy = 20.
Proof.
  intro Hdy. unfold Math.hypot.
  pose proof cos_sq_PI6 as Hc.
  replace ((50 - 20 * cos (PI / 6) - 50) * (50 - 20 * cos (PI / 6) - 50) + dy * dy)
    with (20 * 20).
  - apply sqrt_square. lra.
  - replace ((50 - 20 * cos (PI / 6) - 50) * (50 - 20 * cos (PI / 6) - 50))
      with (400 * (cos (PI / 6) * cos (PI / 6))) by ring.
    rewrite Hc, Hdy. lra.
Qed.

(** C9. Scenario D: a [filled-triangle] head of size 20 with tangent
    angle 0 and rotation 0 at the tip [(50,50)] is the closed path
    [M 50 50 L x1 y1 L x2 y2 Z] with [x1 = x2 = 50 - 20 * cos(pi/6)],
    [y1 = 60] and [y2 = 40]: the two wing points are at distance 20 from
    the tip, 30 degrees to either side of the direction behind it.  For any
    tip, angle, size and rotation the wings are at [totalAngle - pi/6] and
    [totalAngle + pi/6]. *)
Theorem scenario_D_filled_triangle (forceFilled : bool) :
  createArrowHead 50 50 0 20 "filled-triangle" 0 forceFilled
  = [MoveTo 50 50;
     LineTo (50 - 20 * cos (PI / 6)) 60;
     LineTo (50 - 20 * cos (PI / 6)) 40;
     ClosePath] /\
  Math.hypot (50 - 20 * cos (PI / 6) - 50) (60 - 50) = 20 /\
  Math.hypot (50 - 20 * cos (PI / 6) - 50) (40 - 50) = 20 /\
  (forall x y angle size rotation,
     let totalAngle := angle + (rotation * Math.PI) / 180 in
     createArrowHead x y angle size "filled-triangle" rotation forceFilled
     = [MoveTo x y;
        LineTo (x - size * Math.cos (totalAngle - Math.PI / 6))
               (y - size * Math.sin (totalAngle - Math.PI / 6));
        LineTo (x - size * Math.cos (totalAngle + Math.PI / 6))
               (y - size * Math.sin (totalAngle + Math.PI / 6));
        ClosePath]).
Proof.
  split; [| split; [| split]].
  - rewrite filled_triangle_shape. cbv zeta.
    unfold Math.cos, Math.sin, Math.PI.
    replace (0 + 0 * PI / 180 - PI / 6) with (- (PI / 6)) by lra.
    replace (0 + 0 * PI / 180 + PI / 6) with (PI / 6) by lra.
    rewrite cos_neg, sin_neg, sin_PI6.
    num_eq.
  - apply wing_distance. lra.
  - apply wing_distance. lra.
  - intros x y angle size rotation. apply filled_triangle_shape.
Qed.

(** * Further properties of the code *)

(** ** Anchor resolver *)

(** Scrolling or moving the page moves the container and the element by
    the same amount: the anchor does not change, for any dock position.
    The size of the container plays no part either. *)
Theorem calculatePosition_translation (c rect : DOMRect.t) (dx dy w' h' : R)
    (position : string) :
  calculatePosition
    (Some (DOMRect.mk (DOMRect.left c + dx) (DOMRect.top c + dy) w' h'))
    (DOMRect.mk (DOMRect.left rect + dx) (DOMRect.top rect + dy)
                (DOMRect.width rect) (DOMRect.height rect))
    position
  = calculatePosition (Some c) rect position.
Proof.
  unfold calculatePosition.
  cbn [DOMRect.left DOMRect.top DOMRect.width DOMRect.height].
  repeat match goal with
  | |- context [if is_case position ?l then _ else _] => destruct (is_case position l)
  end; num_eq.
Qed.

(** A dock position that is none of the 21 known names resolves to the
    centroid, as [center] does. *)
Theorem calculatePosition_unknown_is_center (containerRect : option DOMRect.t)
    (rect : DOMRect.t) (position : string) :
  ~ In position dockPositions ->
  calculatePosition containerRect rect position
  = calculatePosition containerRect rect "center".
Proof.
  intro Hout. unfold calculatePosition.
  destruct containerRect as [c |]; [| reflexivity].
  rewrite !(fun l H => is_case_outside position l dockPositions H Hout)
    by label_incl.
  reflexivity.
Qed.

Lemma calculatePosition_unknown_is_center_witness :
  ~ In "middle" dockPositions /\
  calculatePosition (Some (DOMRect.mk 0 0 300 200)) (DOMRect.mk 10 10 20 10) "middle"
  = calculatePosition (Some (DOMRect.mk 0 0 300 200)) (DOMRect.mk 10 10 20 10) "center".
Proof.
  assert (H : ~ In "middle" dockPositions).
  { cbn. intro H. repeat (destruct H as [H | H]; [discriminate H |]). exact H. }
  split; [exact H |].
  apply (calculatePosition_unknown_is_center
           (Some (DOMRect.mk 0 0 300 200)) (DOMRect.mk 10 10 20 10) "middle" H).
Defined.

(** For an element of non-negative width and height, every anchor, for
    any dock position string, lies in the element rectangle grown by the
    padding 5 on each side. *)
Theorem calculatePosition_within_padded_rect (c rect : DOMRect.t) (position : string) :
  0 <= DOMRect.width rect -> 0 <= DOMRect.height rect ->
  let e := relativeRect c rect in
  let p := calculatePosition (Some c) rect position in
  RectLite.x e - 5 <= Point.x p <= RectLite.x e + RectLite.width e + 5 /\
  RectLite.y e - 5 <= Point.y p <= RectLite.y e + RectLite.height e + 5.
Proof.
  intros Hw Hh. cbv zeta. unfold calculatePosition, relativeRect.
  cbn [RectLite.x RectLite.y RectLite.width RectLite.height].
  repeat match goal with
  | |- context [if is_case position ?l then _ else _] => destruct (is_case position l)
  end; cbn [Point.x Point.y]; lra.
Qed.

Lemma calculatePosition_within_padded_rect_witness :
  let p := calculatePosition (Some (DOMRect.mk 0 0 300 200))
                             (DOMRect.mk 10 10 20 10) "right" in
  10 - 5 <= Point.x p <= 10 + 20 + 5 /\ 10 - 5 <= Point.y p <= 10 + 10 + 5.
Proof.
  cbv zeta.
  pose proof (calculatePosition_within_padded_rect
                (DOMRect.mk 0 0 300 200) (DOMRect.mk 10 10 20 10) "right") as H.
  cbn [DOMRect.width DOMRect.height] in H.
  assert (Hw : 0 <= 20) by lra. assert (Hh : 0 <= 10) by lra.
  specialize (H Hw Hh). cbv zeta in H.
  unfold relativeRect in H.
  cbn [RectLite.x RectLite.y RectLite.width RectLite.height
       DOMRect.left DOMRect.top DOMRect.width DOMRect.height] in H.
  replace (10 - 0) with 10 in H by lra.
  exact H.
Defined.

(** ** Coordinate committer *)

Lemma abs_self_lt (a : R) : (Math.abs (a - a) <? 0.5) = true.
Proof.
  apply Rltb_lt. unfold Math.abs.
  replace (a - a) with 0 by lra. rewrite Rabs_R0. lra.
Qed.

Lemma updaterFromRefs_idempotent (sp ep : Point.t) (obstacleRects : list RectLite.t)
    (prev : Coordinates.t) :
  updaterFromRefs sp ep obstacleRects (updaterFromRefs sp ep obstacleRects prev)
  = updaterFromRefs sp ep obstacleRects prev.
Proof.
  unfold updaterFromRefs at 2.
  match goal with |- context [if ?b then prev else _] => destruct b eqn:E end.
  - unfold updaterFromRefs. rewrite E. reflexivity.
  - unfold updaterFromRefs.
    cbn [Coordinates.startX Coordinates.startY Coordinates.endX Coordinates.endY
         Coordinates.obstacleRects].
    rewrite !abs_self_lt, Nat.eqb_refl, E. reflexivity.
Qed.

Lemma updaterFromProps_idempotent (startX startY endX endY : R) (prev : Coordinates.t) :
  updaterFromProps startX startY endX endY (updaterFromProps startX startY endX endY prev)
  = updaterFromProps startX startY endX endY prev.
Proof.
  unfold updaterFromProps at 2.
  match goal with |- context [if ?b then prev else _] => destruct b eqn:E end.
  - unfold updaterFromProps. rewrite E. reflexivity.
  - unfold updaterFromProps.
    cbn [Coordinates.startX Coordinates.startY Coordinates.endX Coordinates.endY
         Coordinates.obstacleRects List.length].
    rewrite !abs_self_lt, E. reflexivity.
Qed.

(** Running the callback again on an unchanged layout changes nothing:
    whatever the first run committed, the second run keeps. *)
Theorem updateCoordinates_idempotent (env : Env.t) (st : Cell.t) :
  updateCoordinates env (updateCoordinates env st) = updateCoordinates env st.
Proof.
  unfold updateCoordinates.
  destruct (Cell.isUpdating st) eqn:Hup.
  - rewrite Hup. reflexivity.
  - destruct (Env.startElement env) as [s |];
      [destruct (Env.endElement env) as [e |];
         [destruct (Env.container env) as [c |] | ] | ];
      cbn [Cell.isUpdating Cell.coordinates];
      first [ rewrite updaterFromRefs_idempotent
            | rewrite updaterFromProps_idempotent ];
      reflexivity.
Qed.

Lemma updaterFromRefs_close (sp ep : Point.t) (obstacleRects : list RectLite.t)
    (prev : Coordinates.t) :
  let next := updaterFromRefs sp ep obstacleRects prev in
  Rabs (Coordinates.startX next - Point.x sp) < 0.5 /\
  Rabs (Coordinates.startY next - Point.y sp) < 0.5 /\
  Rabs (Coordinates.endX next - Point.x ep) < 0.5 /\
  Rabs (Coordinates.endY next - Point.y ep) < 0.5 /\
  List.length (Coordinates.obstacleRects next) = List.length obstacleRects.
Proof.
  cbv zeta. unfold updaterFromRefs.
  match goal with |- context [if ?b then prev else _] => destruct b eqn:E end.
  - repeat (apply andb_prop in E; destruct E as [E ?]).
    repeat match goal with
    | H : (_ <? _) = true |- _ => apply Rltb_lt in H
    | H : (_ =? _)%nat = true |- _ => apply Nat.eqb_eq in H
    end.
    unfold Math.abs in *. repeat split; assumption.
  - cbn [Coordinates.startX Coordinates.startY Coordinates.endX Coordinates.endY
         Coordinates.obstacleRects].
    repeat split; try reflexivity;
      match goal with |- Rabs (?a - ?a) < _ =>
        replace (a - a) with 0 by lra; rewrite Rabs_R0; lra end.
Qed.

Lemma updaterFromProps_close (startX startY endX endY : R) (prev : Coordinates.t) :
  let next := updaterFromProps startX startY endX endY prev in
  Rabs (Coordinates.startX next - startX) < 0.5 /\
  Rabs (Coordinates.startY next - startY) < 0.5 /\
  Rabs (Coordinates.endX next - endX) < 0.5 /\
  Rabs (Coordinates.endY next - endY) < 0.5 /\
  Coordinates.obstacleRects next = [].
Proof.
  cbv zeta. unfold updaterFromProps.
  match goal with |- context [if ?b then prev else _] => destruct b eqn:E end.
  - repeat (apply andb_prop in E; destruct E as [E ?]).
    repeat match goal with
    | H : (_ <? _) = true |- _ => apply Rltb_lt in H
    | H : (_ =? _)%nat = true |- _ => apply Nat.eqb_eq in H
    end.
    unfold Math.abs in *. repeat split; try assumption.
    apply length_zero_iff_nil. assumption.
  - cbn [Coordinates.startX Coordinates.startY Coordinates.endX Coordinates.endY
         Coordinates.obstacleRects].
    repeat split; try reflexivity;
      match goal with |- Rabs (?a - ?a) < _ =>
        replace (a - a) with 0 by lra; rewrite Rabs_R0; lra end.
Qed.

(** After a run that is not re-entrant, the committed anchors are within
    0.5 of the anchors just measured on each axis, and the committed
    obstacle list has as many rectangles as were measured: in the element
    branch the measured anchors are those of [calculatePosition], in the
    fallback branch they are the coordinate props and there is no
    obstacle. *)
Theorem updateCoordinates_tracks_measurement (env : Env.t) (st : Cell.t) :
  Cell.isUpdating st = false ->
  let next := Cell.coordinates (updateCoordinates env st) in
  match Env.startElement env, Env.endElement env, Env.container env with
  | Some s, Some e, Some c =>
    let sp := calculatePosition (Some c) s (Env.startPosition env) in
    let ep := calculatePosition (Some c) e (Env.endPosition env) in
    Rabs (Coordinates.startX next - Point.x sp) < 0.5 /\
    Rabs (Coordinates.startY next - Point.y sp) < 0.5 /\
    Rabs (Coordinates.endX next - Point.x ep) < 0.5 /\
    Rabs (Coordinates.endY next - Point.y ep) < 0.5 /\
    List.length (Coordinates.obstacleRects next)
    = List.length (measureObstacles c (Env.obstacleElements env))
  | _, _, _ =>
    Rabs (Coordinates.startX next - Env.startX env) < 0.5 /\
    Rabs (Coordinates.startY next - Env.startY env) < 0.5 /\
    Rabs (Coordinates.endX next - Env.endX env) < 0.5 /\
    Rabs (Coordinates.endY next - Env.endY env) < 0.5 /\
    Coordinates.obstacleRects next = []
  end.
Proof.
  intro Hup. cbv zeta. unfold updateCoordinates. rewrite Hup.
  destruct (Env.startElement env) as [s |];
    [destruct (Env.endElement env) as [e |];
       [destruct (Env.container env) as [c |] | ] | ];
    cbn [Cell.coordinates];
    first [ apply updaterFromRefs_close | apply updaterFromProps_close ].
Qed.

Lemma updateCoordinates_tracks_measurement_witness :
  let env := Env.mk None None None [] "center" "center" 10 20 30 40 in
  let st := Cell.mk false (Coordinates.mk 0 0 100 100 [RectLite.mk 1 2 3 4]) in
  Cell.isUpdating st = false /\
  Coordinates.obstacleRects (Cell.coordinates (updateCoordinates env st)) = [].
Proof.
  cbv zeta. split; [reflexivity |].
  exact (proj2 (proj2 (proj2 (proj2
    (updateCoordinates_tracks_measurement
       (Env.mk None None None [] "center" "center" 10 20 30 40)
       (Cell.mk false (Coordinates.mk 0 0 100 100 [RectLite.mk 1 2 3 4]))
       eq_refl))))).
Defined.

(** The measured obstacle list keeps the order of the refs and skips the
    refs without a current element, so it is never longer than the list of
    refs. *)
Lemma measureObstacles_length (c : DOMRect.t) (refs : list (option DOMRect.t)) :
  (List.length (measureObstacles c refs) <= List.length refs)%nat.
Proof.
  induction refs as [| [o |] rest IH]; cbn; lia.
Qed.

(** ** Curve path generator *)

Lemma hypot_nonneg (a b : R) : 0 <= Math.hypot a b.
Proof. unfold Math.hypot. apply sqrt_pos. Qed.

Lemma baseOffset_range (distance curveIntensity : R) :
  0 <= distance -> 0 <= curveIntensity ->
  0 <= baseOffset distance curveIntensity <= 150.
Proof.
  intros Hd Hi. unfold baseOffset, Math.min.
  pose proof (Rmult_le_pos _ _ Hd Hi) as Hp.
  split.
  - apply Rmin_glb; lra.
  - apply Rmin_r.
Qed.

Lemma directionOffset_one_axis (direction : string) (b : R) :
  let '(offsetX, offsetY) := directionOffset direction b in
  (offsetX = 0 /\ (offsetY = b \/ offsetY = - b \/ offsetY = 0)) \/
  (offsetY = 0 /\ (offsetX = b \/ offsetX = - b)).
Proof.
  unfold directionOffset.
  repeat match goal with
  | |- context [if String.eqb direction ?l then _ else _] => destruct (String.eqb direction l)
  end; tauto.
Qed.

(** For a non-negative intensity the bow never exceeds 150 and acts on one
    axis only, whatever the direction string: one of [offsetX], [offsetY]
    is [0] and the other lies in [[-150, 150]]. *)
Theorem offset_is_capped_on_one_axis (coordinates : Coordinates.t)
    (curveDirection : string) (curveIntensity : R) :
  0 <= curveIntensity ->
  let dx := Coordinates.endX coordinates - Coordinates.startX coordinates in
  let dy := Coordinates.endY coordinates - Coordinates.startY coordinates in
  let offset :=
    directionOffset (effectiveDirection dx dy curveDirection)
                    (baseOffset (Math.hypot dx dy) curveIntensity) in
  (fst offset = 0 \/ snd offset = 0) /\
  -150 <= fst offset <= 150 /\ -150 <= snd offset <= 150.
Proof.
  intros Hi dx dy offset.
  pose proof (baseOffset_range (Math.hypot dx dy) curveIntensity
                (hypot_nonneg dx dy) Hi) as Hb.
  pose proof (directionOffset_one_axis (effectiveDirection dx dy curveDirection)
                (baseOffset (Math.hypot dx dy) curveIntensity)) as Hax.
  fold offset in Hax. destruct offset as [offsetX offsetY]. cbn [fst snd].
  destruct Hax as [[Hx Hy] | [Hy Hx]].
  - destruct Hy as [Hy | [Hy | Hy]]; lra.
  - destruct Hx as [Hx | Hx]; lra.
Qed.

Lemma offset_is_capped_on_one_axis_witness :
  let offset :=
    directionOffset (effectiveDirection (100 - 0) (0 - 0) "auto")
                    (baseOffset (Math.hypot (100 - 0) (0 - 0)) 5) in
  0 <= 5 /\ -150 <= snd offset <= 150.
Proof.
  cbv zeta.
  assert (H : 0 <= 5) by lra.
  split; [exact H |].
  exact (proj2 (proj2 (offset_is_capped_on_one_axis
                         (Coordinates.mk 0 0 100 0 []) "auto" 5 H))).
Defined.

(** The [wave] and [zigzag] paths and control anchors do not depend on the
    direction (they always displace along y) nor on the obstacle list. *)
Theorem wave_and_zigzag_ignore_direction (sx sy ex ey : R)
    (obs1 obs2 : list RectLite.t) (direction1 direction2 : string)
    (curveIntensity : R) :
  createCurvePath (Coordinates.mk sx sy ex ey obs1) "wave" direction1 curveIntensity
  = createCurvePath (Coordinates.mk sx sy ex ey obs2) "wave" direction2 curveIntensity /\
  createCurvePath (Coordinates.mk sx sy ex ey obs1) "zigzag" direction1 curveIntensity
  = createCurvePath (Coordinates.mk sx sy ex ey obs2) "zigzag" direction2 curveIntensity.
Proof.
  unfold createCurvePath.
  do 2 destruct (directionOffset _ _) as [? ?].
  split; reflexivity.
Qed.

(** The routing styles ignore the direction and the intensity, with or
    without obstacles. *)
Theorem routing_ignores_direction_and_intensity (coordinates : Coordinates.t)
    (direction1 direction2 : string) (intensity1 intensity2 : R) :
  createCurvePath coordinates "around-obstacle" direction1 intensity1
  = createCurvePath coordinates "around-obstacle" direction2 intensity2 /\
  createCurvePath coordinates "shortest-path" direction1 intensity1
  = createCurvePath coordinates "shortest-path" direction2 intensity2.
Proof.
  unfold createCurvePath.
  do 2 destruct (directionOffset _ _) as [? ?].
  split; reflexivity.
Qed.

(** Every curve type other than the two routing styles ignores the
    obstacle list. *)
Theorem other_styles_ignore_obstacles (sx sy ex ey : R)
    (obs1 obs2 : list RectLite.t) (curveType curveDirection : string)
    (curveIntensity : R) :
  ~ In curveType ["around-obstacle"; "shortest-path"] ->
  createCurvePath (Coordinates.mk sx sy ex ey obs1) curveType curveDirection curveIntensity
  = createCurvePath (Coordinates.mk sx sy ex ey obs2) curveType curveDirection curveIntensity.
Proof.
  intro Hout. unfold createCurvePath.
  cbn [Coordinates.startX Coordinates.startY Coordinates.endX Coordinates.endY
       Coordinates.obstacleRects].
  destruct (directionOffset _ _) as [offsetX offsetY].
  assert (E : is_case curveType ["around-obstacle"; "shortest-path"] = false).
  { destruct (is_case curveType _) eqn:E; [| reflexivity].
    apply is_case_In in E. contradiction. }
  rewrite E. reflexivity.
Qed.

Lemma other_styles_ignore_obstacles_witness :
  ~ In "elegant" ["around-obstacle"; "shortest-path"] /\
  createCurvePath (Coordinates.mk 0 0 100 50 [RectLite.mk 40 0 20 20]) "elegant" "auto" 0.4
  = createCurvePath (Coordinates.mk 0 0 100 50 []) "elegant" "auto" 0.4.
Proof.
  assert (H : ~ In "elegant" ["around-obstacle"; "shortest-path"]).
  { cbn. intro H. repeat (destruct H as [H | H]; [discriminate H |]). exact H. }
  split; [exact H |].
  apply (other_styles_ignore_obstacles 0 0 100 50 [RectLite.mk 40 0 20 20] []
           "elegant" "auto" 0.4 H).
Defined.

Lemma directionOffset_zero (direction : string) :
  let '(offsetX, offsetY) := directionOffset direction 0 in
  offsetX = 0 /\ offsetY = 0.
Proof.
  unfold directionOffset.
  repeat match goal with
  | |- context [if String.eqb direction ?l then _ else _] => destruct (String.eqb direction l)
  end; split; lra.
Qed.

Lemma baseOffset_zero_intensity (distance : R) : baseOffset distance 0 = 0.
Proof.
  unfold baseOffset. rewrite Rmult_0_r. apply min_l. lra.
Qed.

(** At intensity 0 nothing bows: [smooth] is the obstacle-free cubic of the
    routing styles, with both control points on the chord, for any
    direction. *)
Theorem smooth_at_zero_intensity (sx sy ex ey : R) (obs : list RectLite.t)
    (curveDirection direction' : string) (intensity' : R) :
  createCurvePath (Coordinates.mk sx sy ex ey obs) "smooth" curveDirection 0
  = createCurvePath (Coordinates.mk sx sy ex ey []) "around-obstacle" direction' intensity'.
Proof.
  unfold createCurvePath.
  cbn [Coordinates.startX Coordinates.startY Coordinates.endX Coordinates.endY
       Coordinates.obstacleRects].
  rewrite baseOffset_zero_intensity.
  pose proof (directionOffset_zero
                (effectiveDirection (ex - sx) (ey - sy) curveDirection)) as Hz.
  destruct (directionOffset _ 0) as [offsetX offsetY].
  destruct Hz as [-> ->].
  destruct (directionOffset _ _) as [? ?].
  switch. num_eq.
Qed.

(** ** Obstacle detour *)

Lemma detour_cases (ex ey : R) (st : Route.t) (o : RectLite.t) :
  detour ex ey st o = st \/
  exists wayX wayY,
    detour ex ey st o = Route.mk (Route.pathString st ++ [LineTo wayX wayY]) wayX wayY /\
    clearanceCorner o (Point.mk wayX wayY).
Proof.
  unfold detour.
  match goal with |- context [if ?b then _ else st] => destruct b end;
    [right | left; reflexivity].
  eexists _, _. split; [reflexivity |].
  unfold clearanceCorner. cbn [Point.x Point.y].
  destruct (ex >? _), (ey <? _); tauto.
Qed.

Lemma detour_not_intersecting (ex ey : R) (st : Route.t) (o : RectLite.t) :
  ~ intersectsBox (Route.cx st) (Route.cy st) ex ey o -> detour ex ey st o = st.
Proof. intro H. apply detour_miss. exact H. Qed.

(** A fold of [detour] keeps every property that each step keeps. *)
Lemma route_invariant (P : Route.t -> Prop) (ex ey : R) (obs : list RectLite.t) :
  (forall st o, In o obs -> P st -> P (detour ex ey st o)) ->
  forall l st, incl l obs -> P st -> P (fold_left (detour ex ey) l st).
Proof.
  intros Hstep l.
  induction l as [| o l IH]; intros st Hincl Hst; cbn [fold_left].
  - exact Hst.
  - apply IH.
    + intros a Ha. apply Hincl. right. exact Ha.
    + apply Hstep; [apply Hincl; left; reflexivity | exact Hst].
Qed.

Lemma route_length_bound (ex ey : R) (l : list RectLite.t) (st : Route.t) :
  (List.length (Route.pathString st)
   <= List.length (Route.pathString (fold_left (detour ex ey) l st))
   <= List.length (Route.pathString st) + List.length l)%nat.
Proof.
  revert st. induction l as [| o l IH]; intro st; cbn [fold_left List.length].
  - lia.
  - specialize (IH (detour ex ey st o)).
    destruct (detour_cases ex ey st o) as [E | [wayX [wayY [E _]]]];
      rewrite E in IH |- *; cbn [Route.pathString] in IH;
      try rewrite length_app in IH; cbn [List.length] in IH; lia.
Qed.

(** The router adds at most one waypoint per obstacle: with at least one
    obstacle, a routed path has between 2 commands (move, final line) and
    2 plus the number of obstacles. *)
Theorem routed_path_length (sx sy ex ey : R) (o : RectLite.t) (obs : list RectLite.t)
    (curveDirection : string) (curveIntensity : R) :
  let len curveType :=
    List.length
      (CurvePath.pathString
         (createCurvePath (Coordinates.mk sx sy ex ey (o :: obs)) curveType
                          curveDirection curveIntensity)) in
  (2 <= len "around-obstacle" <= 2 + List.length (o :: obs))%nat /\
  (2 <= len "shortest-path" <= 2 + List.length (o :: obs))%nat.
Proof.
  cbv zeta. unfold createCurvePath.
  destruct (directionOffset _ _) as [offsetX offsetY].
  switch.
  cbn [Coordinates.startX Coordinates.startY Coordinates.endX Coordinates.endY
       Coordinates.obstacleRects CurvePath.pathString].
  rewrite length_app. unfold routeAround.
  pose proof (route_length_bound ex ey (o :: obs) (Route.mk [MoveTo sx sy] sx sy)) as H.
  cbn [Route.pathString List.length] in H |- *. lia.
Qed.

Lemma route_running_point (sx sy ex ey : R) (obs : list RectLite.t) :
  let r := routeAround sx sy ex ey obs in
  lastPoint (Route.pathString r) = Some (Point.mk (Route.cx r) (Route.cy r)).
Proof.
  cbv zeta. unfold routeAround.
  apply (route_invariant
           (fun st => lastPoint (Route.pathString st)
                      = Some (Point.mk (Route.cx st) (Route.cy st)))
           ex ey obs).
  - intros st o _ Hst.
    destruct (detour_cases ex ey st o) as [E | [wayX [wayY [E _]]]]; rewrite E.
    + exact Hst.
    + cbn [Route.pathString Route.cx Route.cy]. apply lastPoint_snoc.
  - apply incl_refl.
  - reflexivity.
Qed.

(** In a routed path the control anchor is the point where the final
    segment starts: the last waypoint, or the start anchor when no
    obstacle was detoured.  The end head is therefore oriented along the
    final segment. *)
Theorem routed_control_anchor_starts_final_segment (sx sy ex ey : R)
    (o : RectLite.t) (obs : list RectLite.t) (curveDirection : string)
    (curveIntensity : R) :
  let curve curveType :=
    createCurvePath (Coordinates.mk sx sy ex ey (o :: obs)) curveType
                    curveDirection curveIntensity in
  let final_segment_from_control c :=
    exists p,
      CurvePath.pathString c = p ++ [LineTo ex ey] /\
      lastPoint p = Some (Point.mk (CurvePath.control2X c) (CurvePath.control2Y c)) in
  final_segment_from_control (curve "around-obstacle") /\
  final_segment_from_control (curve "shortest-path").
Proof.
  cbv zeta. unfold createCurvePath.
  destruct (directionOffset _ _) as [offsetX offsetY].
  switch.
  cbn [Coordinates.startX Coordinates.startY Coordinates.endX Coordinates.endY
       Coordinates.obstacleRects CurvePath.pathString CurvePath.control2X
       CurvePath.control2Y].
  split; (eexists; split; [reflexivity | apply route_running_point]).
Qed.

Lemma route_all_miss (sx sy ex ey : R) (obs : list RectLite.t) :
  Forall (fun o => ~ intersectsBox sx sy ex ey o) obs ->
  routeAround sx sy ex ey obs = Route.mk [MoveTo sx sy] sx sy.
Proof.
  intro Hall. unfold routeAround.
  induction Hall as [| o l Ho Hl IH]; cbn [fold_left].
  - reflexivity.
  - rewrite detour_not_intersecting by exact Ho. exact IH.
Qed.

(** When there are obstacles but none of them is hit from the start
    anchor, the routed path is the straight line [M start L end] with the
    start anchor as control anchor (not the cubic used when the obstacle
    list is empty). *)
Theorem routed_path_without_hit_is_straight (sx sy ex ey : R)
    (o : RectLite.t) (obs : list RectLite.t) (curveType curveDirection : string)
    (curveIntensity : R) :
  In curveType ["around-obstacle"; "shortest-path"] ->
  Forall (fun o' => ~ intersectsBox sx sy ex ey o') (o :: obs) ->
  createCurvePath (Coordinates.mk sx sy ex ey (o :: obs)) curveType
                  curveDirection curveIntensity
  = CurvePath.mk [MoveTo sx sy; LineTo ex ey] sx sy.
Proof.
  intros Hct Hall. unfold createCurvePath.
  destruct (directionOffset _ _) as [offsetX offsetY].
  cbn [Coordinates.startX Coordinates.startY Coordinates.endX Coordinates.endY
       Coordinates.obstacleRects].
  cbn in Hct.
  destruct Hct as [<- | [<- | []]]; switch;
    rewrite (route_all_miss sx sy ex ey (o :: obs) Hall); reflexivity.
Qed.

Lemma routed_path_without_hit_is_straight_witness :
  createCurvePath (Coordinates.mk 0 0 100 0 [RectLite.mk 500 500 20 20])
                  "around-obstacle" "auto" 0.4
  = CurvePath.mk [MoveTo 0 0; LineTo 100 0] 0 0.
Proof.
  apply (routed_path_without_hit_is_straight 0 0 100 0 (RectLite.mk 500 500 20 20) []
           "around-obstacle" "auto" 0.4).
  - left. reflexivity.
  - constructor; [| constructor].
    unfold intersectsBox.
    cbn [RectLite.x RectLite.y RectLite.width RectLite.height].
    lra.
Defined.

(** Every point the router adds is a waypoint of one of the given
    obstacles, 20 beyond a vertical side and 10 beyond a horizontal side of
    its grown box: the path is the start move followed by such line
    commands only. *)
Theorem route_waypoints_clear_their_obstacle (sx sy ex ey : R)
    (obs : list RectLite.t) :
  exists waypoints,
    Route.pathString (routeAround sx sy ex ey obs) = MoveTo sx sy :: waypoints /\
    Forall (fun c => exists o wayX wayY,
                       In o obs /\ c = LineTo wayX wayY /\
                       clearanceCorner o (Point.mk wayX wayY))
           waypoints.
Proof.
  unfold routeAround.
  apply (route_invariant
           (fun st => exists waypoints,
              Route.pathString st = MoveTo sx sy :: waypoints /\
              Forall (fun c => exists o wayX wayY,
                                 In o obs /\ c = LineTo wayX wayY /\
                                 clearanceCorner o (Point.mk wayX wayY))
                     waypoints)
           ex ey obs).
  - intros st o Hin [ws [Hpath Hws]].
    destruct (detour_cases ex ey st o) as [E | [wayX [wayY [E Hc]]]]; rewrite E.
    + exists ws. split; assumption.
    + exists (ws ++ [LineTo wayX wayY]). cbn [Route.pathString]. split.
      * rewrite Hpath. reflexivity.
      * apply Forall_app. split; [exact Hws |].
        constructor; [| constructor].
        exists o, wayX, wayY. repeat split; try assumption; apply Hc.
  - apply incl_refl.
  - exists []. split; [reflexivity | constructor].
Qed.

(** An obstacle is never detoured from a running point at or beyond the
    right side of its grown box, nor towards an end anchor at or before
    its left side, wherever the other point is: a connector drawn from
    right to left across an obstacle gets no waypoint for it. *)
Theorem detour_only_left_to_right (ex ey : R) (st : Route.t) (o : RectLite.t) :
  Route.cx st >= RectLite.x o + RectLite.width o + 25 \/ ex <= RectLite.x o - 25 ->
  detour ex ey st o = st.
Proof.
  intro H. apply detour_not_intersecting. unfold intersectsBox.
  intros [H1 [H2 _]]. destruct H as [H | H]; lra.
Qed.

Lemma detour_only_left_to_right_witness :
  let st := Route.mk [MoveTo 100 50] 100 50 in
  detour 0 50 st (RectLite.mk 40 40 20 20) = st.
Proof.
  cbv zeta.
  apply (detour_only_left_to_right 0 50 (Route.mk [MoveTo 100 50] 100 50)
           (RectLite.mk 40 40 20 20)).
  left. cbn [Route.cx RectLite.x RectLite.width]. lra.
Defined.

(** ** Arrowhead generator *)

(** Each unfilled name draws the same path as its [filled-] form, and
    [arrow] the same as [triangle]: the pairs share a [case]. *)
Lemma head_shape_aliases (x y angle size rotation : R) (forceFilled : bool) :
  let head shape := createArrowHead x y angle size shape rotation forceFilled in
  head "circle" = head "filled-circle" /\
  head "square" = head "filled-square" /\
  head "diamond" = head "filled-diamond" /\
  head "arrow" = head "triangle".
Proof. cbv zeta. destruct forceFilled; repeat split; reflexivity. Qed.

(** [forceFilled] acts on [triangle], [arrow] and [hollow-triangle] only,
    which it replaces by the closed path of [filled-triangle]; on every
    other shape it changes nothing. *)
Theorem forceFilled_only_closes_triangles (x y angle size rotation : R)
    (shape : string) :
  (In shape ["triangle"; "arrow"; "hollow-triangle"] ->
   createArrowHead x y angle size shape rotation true
   = createArrowHead x y angle size "filled-triangle" rotation false) /\
  (~ In shape ["triangle"; "arrow"; "hollow-triangle"] ->
   createArrowHead x y angle size shape rotation true
   = createArrowHead x y angle size shape rotation false).
Proof.
  split.
  - intro H. cbn in H.
    repeat (destruct H as [H | H]; [subst shape; reflexivity |]). destruct H.
  - intro H. unfold createArrowHead.
    assert (E : is_case shape ["triangle"; "arrow"; "hollow-triangle"] = false).
    { destruct (is_case shape _) eqn:E; [| reflexivity].
      apply is_case_In in E. contradiction. }
    rewrite E. reflexivity.
Qed.

Lemma forceFilled_only_closes_triangles_witness :
  (In "arrow" ["triangle"; "arrow"; "hollow-triangle"] /\
   createArrowHead 50 50 0 20 "arrow" 0 true
   = createArrowHead 50 50 0 20 "filled-triangle" 0 false) /\
  (~ In "star" ["triangle"; "arrow"; "hollow-triangle"] /\
   createArrowHead 50 50 0 20 "star" 0 true
   = createArrowHead 50 50 0 20 "star" 0 false).
Proof.
  assert (H1 : In "arrow" ["triangle"; "arrow"; "hollow-triangle"])
    by (right; left; reflexivity).
  assert (H2 : ~ In "star" ["triangle"; "arrow"; "hollow-triangle"]).
  { cbn. intro H. repeat (destruct H as [H | H]; [discriminate H |]). exact H. }
  split; (split; [assumption |]).
  - exact (proj1 (forceFilled_only_closes_triangles 50 50 0 20 0 "arrow") H1).
  - exact (proj2 (forceFilled_only_closes_triangles 50 50 0 20 0 "star") H2).
Defined.

(** A shape name without a [case] of its own draws the open triangle of
    [triangle] when [forceFilled] is off.  This includes the declared
    names [hollow-triangle], [hollow-square] and [hollow-diamond]. *)
Theorem unknown_shape_is_open_triangle (x y angle size rotation : R) (shape : string) :
  ~ In shape implementedShapes ->
  createArrowHead x y angle size shape rotation false
  = createArrowHead x y angle size "triangle" rotation false.
Proof.
  intro Hout. unfold createArrowHead. cbn [andb].
  rewrite !(fun l H => is_case_outside shape l implementedShapes H Hout)
    by label_incl.
  reflexivity.
Qed.

Lemma unknown_shape_is_open_triangle_witness :
  ~ In "hollow-square" implementedShapes /\
  createArrowHead 50 50 0 20 "hollow-square" 0 false
  = createArrowHead 50 50 0 20 "triangle" 0 false.
Proof.
  assert (H : ~ In "hollow-square" implementedShapes).
  { cbn. intro H. repeat (destruct H as [H | H]; [discriminate H |]). exact H. }
  split; [exact H |].
  apply (unknown_shape_is_open_triangle 50 50 0 20 0 "hollow-square" H).
Defined.

Lemma head_starts_with_move (x y angle size : R) (shape : string) (rotation : R)
    (forceFilled : bool) :
  exists px py rest,
    createArrowHead x y angle size shape rotation forceFilled = MoveTo px py :: rest.
Proof.
  unfold createArrowHead.
  destruct forceFilled; cbn [andb];
  repeat match goal with
  | |- context [if is_case shape ?l then _ else _] => destruct (is_case shape l)
  end;
  try (eexists _, _, _; reflexivity).
  all: cbn [for_loop]; unfold starPoint; cbn [Nat.eqb app];
    eexists _, _, _; reflexivity.
Qed.

(** A head path is never empty: for every shape name, angle, size, rotation
    and fill flag it starts with a move, so a head that is switched on is
    always drawable. *)
Theorem head_path_is_never_empty (x y angle size : R) (shape : string) (rotation : R)
    (forceFilled : bool) :
  let head := createArrowHead x y angle size shape rotation forceFilled in
  truthyPath (Some head) = true /\ exists p, firstPoint head = Some p.
Proof.
  cbv zeta.
  destruct (head_starts_with_move x y angle size shape rotation forceFilled)
    as [px [py [rest E]]].
  rewrite E. split; [reflexivity | eexists; reflexivity].
Qed.

(** ** Head placement *)

Lemma hypot_null : Math.hypot 0 0 = 0.
Proof. apply hypot_axis. lra. Qed.

Lemma atan2_null : Math.atan2 0 0 = 0.
Proof.
  unfold Math.atan2.
  rewrite (proj2 (Rltb_nlt 0 0)) by lra. reflexivity.
Qed.

Lemma degenerate_control_anchor (x y : R) (curveType curveDirection : string)
    (curveIntensity : R) :
  let curve :=
    createCurvePath (Coordinates.mk x y x y []) curveType curveDirection curveIntensity in
  CurvePath.control2X curve = x /\ CurvePath.control2Y curve = y.
Proof.
  cbv zeta. unfold createCurvePath.
  cbn [Coordinates.startX Coordinates.startY Coordinates.endX Coordinates.endY
       Coordinates.obstacleRects].
  replace (x - x) with 0 by ring. replace (y - y) with 0 by ring.
  rewrite hypot_null.
  replace (baseOffset 0 curveIntensity) with 0.
  2:{ unfold baseOffset. rewrite Rmult_0_l. symmetry. apply min_l. lra. }
  pose proof (directionOffset_zero (effectiveDirection 0 0 curveDirection)) as Hz.
  destruct (directionOffset _ 0) as [offsetX offsetY].
  destruct Hz as [-> ->].
  repeat match goal with
  | |- context [if is_case curveType ?l then _ else _] => destruct (is_case curveType l)
  end;
  cbn [CurvePath.control2X CurvePath.control2Y]; split; lra.
Qed.

(** A connector whose start and end anchors coincide, with no obstacle:
    for every curve type, direction and intensity both tangents are [0],
    so the end head is drawn at angle [0] and the start head at angle
    [PI]. *)
Theorem degenerate_connector_head_angles (x y : R) (curveType curveDirection : string)
    (curveIntensity : R) :
  let coordinates := Coordinates.mk x y x y [] in
  let curve := createCurvePath coordinates curveType curveDirection curveIntensity in
  endAngle coordinates curve = 0 /\ startAngle coordinates curve = Math.PI.
Proof.
  cbv zeta. unfold endAngle, startAngle, endTangent, startTangent.
  destruct (degenerate_control_anchor x y curveType curveDirection curveIntensity)
    as [-> ->].
  cbn [Coordinates.startX Coordinates.startY Coordinates.endX Coordinates.endY].
  replace (x - x) with 0 by ring. replace (y - y) with 0 by ring.
  rewrite atan2_null. split; [reflexivity | ring].
Qed.

Lemma overlayLen_min (strokeWidth : R) : 12 <= overlayLen strokeWidth.
Proof. unfold overlayLen, Math.max. apply Rmax_r. Qed.

(** [overlayLen] is [max(2 * strokeWidth + 6, 12)]: one of the two, and
    never less than either.  Each overlay path is a move to the anchor
    shifted back by [overlayLen] times the cosine and sine of the tangent,
    followed by a line that ends at the anchor. *)
Theorem overlay_segment_shape (coordinates : Coordinates.t) (curve : CurvePath.t)
    (strokeWidth : R) :
  let len := overlayLen strokeWidth in
  let sx := Coordinates.startX coordinates in
  let sy := Coordinates.startY coordinates in
  let ex := Coordinates.endX coordinates in
  let ey := Coordinates.endY coordinates in
  12 <= len /\ strokeWidth * 2 + 6 <= len /\
  (len = 12 \/ len = strokeWidth * 2 + 6) /\
  startOverlayPath coordinates curve len
  = [MoveTo (sx - Math.cos (startTangent coordinates curve) * len)
            (sy - Math.sin (startTangent coordinates curve) * len);
     LineTo sx sy] /\
  endOverlayPath coordinates curve len
  = [MoveTo (ex - Math.cos (endTangent coordinates curve) * len)
            (ey - Math.sin (endTangent coordinates curve) * len);
     LineTo ex ey] /\
  lastPoint (startOverlayPath coordinates curve len) = Some (Point.mk sx sy) /\
  lastPoint (endOverlayPath coordinates curve len) = Some (Point.mk ex ey).
Proof.
  cbv zeta.
  split; [apply overlayLen_min |].
  split; [unfold overlayLen, Math.max; apply Rmax_l |].
  split.
  - unfold overlayLen, Math.max, Rmax.
    destruct (Rle_dec (strokeWidth * 2 + 6) 12); [left | right]; reflexivity.
  - repeat split; reflexivity.
Qed.

(** ** The two layers *)

Lemma countIn_app (p : Part) (l1 l2 : list SvgPath.t) :
  countIn p (l1 ++ l2) = (countIn p l1 + countIn p l2)%nat.
Proof. unfold countIn. rewrite filter_app, length_app. reflexivity. Qed.

Lemma countIn_when (p : Part) (cond : bool) (el : SvgPath.t) :
  countIn p (when cond el)
  = if cond && Part_eqb p (SvgPath.part el) then 1%nat else 0%nat.
Proof.
  unfold countIn, when. destruct cond; cbn; [| reflexivity].
  destruct (Part_eqb p (SvgPath.part el)); reflexivity.
Qed.

Lemma startHead_truthy (props : Props.t) (coordinates : Coordinates.t)
    (curve : CurvePath.t) :
  truthyPath (startHeadPath props coordinates curve) = Props.showStartArrow props.
Proof.
  unfold startHeadPath. destruct (Props.showStartArrow props); [| reflexivity].
  destruct (head_starts_with_move
              (Coordinates.startX coordinates) (Coordinates.startY coordinates)
              (startAngle coordinates curve) (effStartSize props)
              (Props.startArrowShape props) (Props.startArrowRotation props)
              (Props.startArrowFilled props)) as [px [py [rest E]]].
  rewrite E. reflexivity.
Qed.

Lemma endHead_truthy (props : Props.t) (coordinates : Coordinates.t)
    (curve : CurvePath.t) :
  truthyPath (endHeadPath props coordinates curve) = Props.showEndArrow props.
Proof.
  unfold endHeadPath. destruct (Props.showEndArrow props); [| reflexivity].
  destruct (head_starts_with_move
              (Coordinates.endX coordinates) (Coordinates.endY coordinates)
              (endAngle coordinates curve) (effEndSize props)
              (Props.endArrowShape props) (Props.endArrowRotation props)
              (Props.endArrowFilled props)) as [px [py [rest E]]].
  rewrite E. reflexivity.
Qed.

(** The number of paths of each part on a layer, read off [renderSVG]. *)
Lemma renderSVG_counts (gradientIdBase filterIdBase : string) (props : Props.t)
    (coordinates : Coordinates.t) (layer : string) :
  let svg := renderSVG gradientIdBase filterIdBase props coordinates layer in
  let onLine := String.eqb layer "under" in
  let startHere :=
    Props.showStartArrow props && String.eqb (Props.startHeadLayer props) layer in
  let endHere :=
    Props.showEndArrow props && String.eqb (Props.endHeadLayer props) layer in
  let one (b : bool) := if b then 1%nat else 0%nat in
  countPart Glow svg = one (onLine && isGlowVariant (Props.variant props)) /\
  countPart MainLine svg = one onLine /\
  countPart DashOverlay svg = one (onLine && Props.animated props) /\
  countPart StartHead svg = one startHere /\
  countPart EndHead svg = one endHere /\
  countPart StartOverlay svg = one (startHere && Props.startLineOverHead props) /\
  countPart EndOverlay svg = one (endHere && Props.endLineOverHead props).
Proof.
  cbv zeta. unfold countPart, renderSVG. cbn [Svg.paths].
  rewrite startHead_truthy, endHead_truthy.
  rewrite !countIn_app, !countIn_when.
  cbn [SvgPath.part Part_eqb].
  rewrite ?andb_false_r, ?andb_true_r.
  repeat split;
    repeat match goal with
    | |- context [if ?b then _ else _] => destruct b
    end; reflexivity.
Qed.

(** The main line, its glow and its dash overlay are drawn on the layer
    named [under] only: exactly one main line there, and none of the three
    on [over] or on any other layer name. *)
Theorem line_is_drawn_on_under_only (gradientIdBase filterIdBase : string)
    (props : Props.t) (coordinates : Coordinates.t) (layer : string) :
  countPart MainLine
    (renderSVG gradientIdBase filterIdBase props coordinates "under") = 1%nat /\
  (layer <> "under" ->
   let svg := renderSVG gradientIdBase filterIdBase props coordinates layer in
   countPart MainLine svg = 0%nat /\ countPart Glow svg = 0%nat /\
   countPart DashOverlay svg = 0%nat).
Proof.
  split.
  - apply (renderSVG_counts gradientIdBase filterIdBase props coordinates "under").
  - intro Hl. cbv zeta.
    pose proof (renderSVG_counts gradientIdBase filterIdBase props coordinates layer)
      as [Hg [Hm [Hd _]]].
    cbv zeta in Hg, Hm, Hd.
    apply String.eqb_neq in Hl. rewrite Hl in Hg, Hm, Hd.
    repeat split; assumption.
Qed.

Lemma line_is_drawn_on_under_only_witness :
  "over" <> "under" /\
  countPart MainLine
    (renderSVG "g" "f" defaultProps (Coordinates.mk 0 0 100 100 []) "over") = 0%nat.
Proof.
  assert (H : "over" <> "under") by discriminate.
  split; [exact H |].
  exact (proj1 (proj2 (line_is_drawn_on_under_only "g" "f" defaultProps
                         (Coordinates.mk 0 0 100 100 []) "over") H)).
Defined.

(** A head that is switched on and assigned to [under] or [over] is drawn
    exactly once, on that layer and not on the other; a head that is
    switched off is drawn on no layer. *)
Theorem head_is_drawn_on_its_layer_only (gradientIdBase filterIdBase : string)
    (props : Props.t) (coordinates : Coordinates.t) :
  let render := renderSVG gradientIdBase filterIdBase props coordinates in
  (Props.showStartArrow props = true ->
   In (Props.startHeadLayer props) ["under"; "over"] ->
   countPart StartHead (render (Props.startHeadLayer props)) = 1%nat /\
   (countPart StartHead (render "under") + countPart StartHead (render "over") = 1)%nat) /\
  (Props.showEndArrow props = true ->
   In (Props.endHeadLayer props) ["under"; "over"] ->
   countPart EndHead (render (Props.endHeadLayer props)) = 1%nat /\
   (countPart EndHead (render "under") + countPart EndHead (render "over") = 1)%nat) /\
  (Props.showStartArrow props = false ->
   forall layer, countPart StartHead (render layer) = 0%nat) /\
  (Props.showEndArrow props = false ->
   forall layer, countPart EndHead (render layer) = 0%nat).
Proof.
  cbv zeta.
  assert (Hs : forall layer,
            countPart StartHead
              (renderSVG gradientIdBase filterIdBase props coordinates layer)
            = if Props.showStartArrow props
                 && String.eqb (Props.startHeadLayer props) layer
              then 1%nat else 0%nat)
    by (intro layer; apply renderSVG_counts).
  assert (He : forall layer,
            countPart EndHead
              (renderSVG gradientIdBase filterIdBase props coordinates layer)
            = if Props.showEndArrow props
                 && String.eqb (Props.endHeadLayer props) layer
              then 1%nat else 0%nat)
    by (intro layer; apply renderSVG_counts).
  split; [| split; [| split]].
  - intros Hshow Hin. rewrite !Hs, Hshow, String.eqb_refl. cbn [andb].
    split; [reflexivity |].
    cbn in Hin. destruct Hin as [<- | [<- | []]]; reflexivity.
  - intros Hshow Hin. rewrite !He, Hshow, String.eqb_refl. cbn [andb].
    split; [reflexivity |].
    cbn in Hin. destruct Hin as [<- | [<- | []]]; reflexivity.
  - intros Hshow layer. rewrite Hs, Hshow. reflexivity.
  - intros Hshow layer. rewrite He, Hshow. reflexivity.
Qed.

Lemma head_is_drawn_on_its_layer_only_witness :
  let render := renderSVG "g" "f" defaultProps (Coordinates.mk 0 0 100 100 []) in
  (Props.showEndArrow defaultProps = true /\
   In (Props.endHeadLayer defaultProps) ["under"; "over"]) /\
  (countPart EndHead (render "under") + countPart EndHead (render "over") = 1)%nat /\
  Props.showStartArrow defaultProps = false /\
  countPart StartHead (render "over") = 0%nat.
Proof.
  cbv zeta.
  pose proof (head_is_drawn_on_its_layer_only "g" "f" defaultProps
                (Coordinates.mk 0 0 100 100 [])) as [_ [He [Hs _]]].
  cbv zeta in He, Hs.
  assert (H1 : Props.showEndArrow defaultProps = true) by reflexivity.
  assert (H2 : In (Props.endHeadLayer defaultProps) ["under"; "over"])
    by (right; left; reflexivity).
  assert (H3 : Props.showStartArrow defaultProps = false) by reflexivity.
  split; [split; assumption |].
  split; [exact (proj2 (He H1 H2)) |].
  split; [exact H3 | exact (Hs H3 "over")].
Defined.

(** An overlay segment is drawn on a layer only together with its head:
    on every layer its count is the count of the head when the
    line-over-head flag is set, and [0] otherwise. *)
Theorem overlay_is_drawn_with_its_head_only (gradientIdBase filterIdBase : string)
    (props : Props.t) (coordinates : Coordinates.t) (layer : string) :
  let svg := renderSVG gradientIdBase filterIdBase props coordinates layer in
  countPart StartOverlay svg
  = (if Props.startLineOverHead props then countPart StartHead svg else 0%nat) /\
  countPart EndOverlay svg
  = (if Props.endLineOverHead props then countPart EndHead svg else 0%nat).
Proof.
  cbv zeta.
  pose proof (renderSVG_counts gradientIdBase filterIdBase props coordinates layer)
    as [_ [_ [_ [Hsh [Heh [Hso Heo]]]]]].
  cbv zeta in Hsh, Heh, Hso, Heo.
  rewrite Hsh, Heh, Hso, Heo.
  split.
  - destruct (Props.startLineOverHead props);
      rewrite ?andb_true_r, ?andb_false_r; reflexivity.
  - destruct (Props.endLineOverHead props);
      rewrite ?andb_true_r, ?andb_false_r; reflexivity.
Qed.

Lemma append_length (a b : string) :
  String.length (a ++ b) = (String.length a + String.length b)%nat.
Proof. induction a as [| c a IH]; cbn; [reflexivity | rewrite IH; reflexivity]. Qed.

Lemma append_cancel_l (s a b : string) : (s ++ a = s ++ b)%string -> a = b.
Proof.
  induction s as [| c s IH]; cbn; intro H; [exact H |].
  injection H as H. apply IH, H.
Qed.

Lemma append_cancel_r (s a b : string) : (a ++ s = b ++ s)%string -> a = b.
Proof.
  revert b. induction a as [| c a IH]; intros [| d b] H.
  - reflexivity.
  - apply (f_equal String.length) in H. cbn in H. rewrite append_length in H. lia.
  - apply (f_equal String.length) in H. cbn in H. rewrite append_length in H. lia.
  - cbn in H. injection H as Hc H. f_equal; [exact Hc | apply IH, H].
Qed.

(** Gradient and filter ids do not collide: the two layers of one
    instance get different ids, and on any layer two instances with
    different base ids get different ids. *)
Theorem layer_ids_do_not_collide (props : Props.t) (coordinates : Coordinates.t) :
  (forall g f,
     Svg.gid (renderSVG g f props coordinates "under")
     <> Svg.gid (renderSVG g f props coordinates "over") /\
     Svg.fid (renderSVG g f props coordinates "under")
     <> Svg.fid (renderSVG g f props coordinates "over")) /\
  (forall g1 g2 f1 f2 layer,
     (g1 <> g2 ->
      Svg.gid (renderSVG g1 f1 props coordinates layer)
      <> Svg.gid (renderSVG g2 f2 props coordinates layer)) /\
     (f1 <> f2 ->
      Svg.fid (renderSVG g1 f1 props coordinates layer)
      <> Svg.fid (renderSVG g2 f2 props coordinates layer))).
Proof.
  split.
  - intros g f. unfold renderSVG. cbn [Svg.gid Svg.fid].
    split; intro H; apply append_cancel_l in H; discriminate H.
  - intros g1 g2 f1 f2 layer. unfold renderSVG. cbn [Svg.gid Svg.fid].
    split; intros Hne H; apply Hne; apply append_cancel_r in H; exact H.
Qed.

Lemma layer_ids_do_not_collide_witness :
  "a" <> "b" /\
  Svg.gid (renderSVG "a" "f" defaultProps (Coordinates.mk 0 0 100 100 []) "under")
  <> Svg.gid (renderSVG "b" "f" defaultProps (Coordinates.mk 0 0 100 100 []) "under").
Proof.
  assert (H : "a" <> "b") by discriminate.
  split; [exact H |].
  exact (proj1 (proj2 (layer_ids_do_not_collide defaultProps
                         (Coordinates.mk 0 0 100 100 []))
                 "a" "b" "f" "f" "under") H).
Defined.

(** ** Shape of the wave and joints between path and heads *)

Lemma previous_sample (k n : nat) : (INR (S k) - 1) / INR n = INR k / INR n.
Proof. rewrite S_INR. unfold Rdiv. f_equal. ring. Qed.

(** The [wave] path is a polyline: it is a move to the start anchor
    followed by 8 quadratic commands, and the control point of each is the
    midpoint of the segment it draws, so every stroke is straight. *)
Theorem wave_is_a_polyline (coordinates : Coordinates.t) (curveDirection : string)
    (curveIntensity : R) :
  let sx := Coordinates.startX coordinates in
  let sy := Coordinates.startY coordinates in
  exists quads,
    CurvePath.pathString
      (createCurvePath coordinates "wave" curveDirection curveIntensity)
    = MoveTo sx sy :: quads /\
    List.length quads = 8%nat /\
    chordMidpointQuads (Point.mk sx sy) quads.
Proof.
  cbv zeta. unfold createCurvePath.
  destruct (directionOffset _ _) as [offsetX offsetY].
  switch. cbn [CurvePath.pathString for_loop]. unfold waveSegment. cbn [app].
  eexists. split; [reflexivity |]. split; [reflexivity |].
  cbn [chordMidpointQuads Point.x Point.y].
  rewrite !previous_sample.
  change (INR 0) with 0.
  replace (0 / INR 8) with 0 by (unfold Rdiv; ring).
  replace (0 * Math.PI * 4) with 0 by ring.
  replace (Math.sin 0) with 0 by (symmetry; apply sin_0).
  repeat split; try reflexivity; lra.
Qed.

Lemma tip_shape_starts_at_tip (x y angle size : R) (shape : string) (rotation : R)
    (forceFilled : bool) :
  In shape tipShapes \/ ~ In shape implementedShapes ->
  firstPoint (createArrowHead x y angle size shape rotation forceFilled)
  = Some (Point.mk x y).
Proof.
  intros [Hin | Hout].
  - cbn in Hin.
    repeat (destruct Hin as [Hin | Hin];
            [subst shape; destruct forceFilled; reflexivity |]).
    destruct Hin.
  - unfold createArrowHead.
    destruct (forceFilled && is_case shape ["triangle"; "arrow"; "hollow-triangle"]);
      [reflexivity |].
    rewrite !(fun l H => is_case_outside shape l implementedShapes H Hout)
      by label_incl.
    reflexivity.
Qed.

(** For the shapes drawn from their tip ([triangle], [arrow],
    [filled-triangle], [heart]) and for every shape name that falls to the
    default, the end head starts exactly where the curve path ends, for
    every curve type but [wave]: head and line are given the same end
    anchor. *)
Theorem tip_head_meets_the_path_end (props : Props.t) (coordinates : Coordinates.t) :
  Props.showEndArrow props = true ->
  Props.curveType props <> "wave" ->
  In (Props.endArrowShape props) tipShapes
  \/ ~ In (Props.endArrowShape props) implementedShapes ->
  let curve :=
    createCurvePath coordinates (Props.curveType props) (Props.curveDirection props)
                    (Props.curveIntensity props) in
  exists head,
    endHeadPath props coordinates curve = Some head /\
    firstPoint head = lastPoint (CurvePath.pathString curve).
Proof.
  intros Hshow Hwave Hshape. cbv zeta.
  unfold endHeadPath. rewrite Hshow.
  eexists. split; [reflexivity |].
  rewrite (proj2 (copied_end_points coordinates _ _ _ Hwave)).
  apply tip_shape_starts_at_tip, Hshape.
Qed.

Lemma tip_head_meets_the_path_end_witness :
  let coordinates := Coordinates.mk 0 0 100 100 [] in
  Props.showEndArrow defaultProps = true /\
  Props.curveType defaultProps <> "wave" /\
  In (Props.endArrowShape defaultProps) tipShapes /\
  exists head,
    endHeadPath defaultProps coordinates
      (createCurvePath coordinates "smooth" "auto" 0.4) = Some head /\
    firstPoint head
    = lastPoint (CurvePath.pathString (createCurvePath coordinates "smooth" "auto" 0.4)).
Proof.
  cbv zeta.
  assert (H1 : Props.showEndArrow defaultProps = true) by reflexivity.
  assert (H0 : Props.curveType defaultProps <> "wave") by discriminate.
  assert (H2 : In (Props.endArrowShape defaultProps) tipShapes) by (left; reflexivity).
  split; [exact H1 |]. split; [exact H0 |]. split; [exact H2 |].
  exact (tip_head_meets_the_path_end defaultProps (Coordinates.mk 0 0 100 100 [])
           H1 H0 (or_introl H2)).
Defined.
